(** * Vizier developer and user guides: the example algorithms and search spaces

  A shallow embedding of the Python code of
  [docs/guides/developer/writing_algorithms.ipynb] (the toy policy and
  designer) and of [docs/guides/user/search_spaces.ipynb] (conditional
  search space, Lehmer-code reparameterization, infeasibility), with the
  properties the specification states about them. *)

From Stdlib Require Import ZArith Floats Permutation Lia.
From stdpp Require Import gmap strings list fin_maps pretty.

Local Open Scope Z_scope.

(** ** Python runtime: exceptions, list subscripts, [max], [range] *)

Module Py.

Inductive exception :=
| ValueError | ZeroDivisionError | IndexError | KeyError
| TypeError | NameError | SchemaError.

(** A call either returns a value or raises. *)
Inductive result (A : Type) :=
| Ok (a : A)
| Raise (e : exception).
Arguments Ok {A} a.
Arguments Raise {A} e.

Global Instance result_ret : MRet result := λ A a, Ok a.

Global Instance result_bind : MBind result := λ A B k r,
  match r with
  | Ok a => k a
  | Raise e => Raise e
  end.

Definition returns {A} (r : result A) : Prop := ∃ a, r = Ok a.

(** [l[i]] on a Python list: a negative subscript counts from the end. *)
Definition getitem {A} (l : list A) (i : Z) : result A :=
  let i' := if i <? 0 then i + Z.of_nat (length l) else i in
  if i' <? 0 then Raise IndexError
  else match l !! Z.to_nat i' with
       | Some a => Ok a
       | None => Raise IndexError
       end.

(** [l.remove(v)]: drops the first occurrence, [ValueError] when absent. *)
Fixpoint remove (v : Z) (l : list Z) : result (list Z) :=
  match l with
  | [] => Raise ValueError
  | x :: l' =>
      if x =? v then Ok l'
      else match remove v l' with
           | Ok r => Ok (x :: r)
           | Raise e => Raise e
           end
  end.

(** [max(l)] on a list of integers: [ValueError] on the empty list. *)
Definition max_from (x : Z) (l : list Z) : Z := fold_left Z.max l x.

Definition max (l : list Z) : result Z :=
  match l with
  | [] => Raise ValueError
  | x :: l' => Ok (max_from x l')
  end.

(** [range(n)]: empty when [n] is not positive. *)
Definition range (n : Z) : list Z := List.map Z.of_nat (seq 0 (Z.to_nat n)).

(** [[f(i) for i in l]]: the first exception aborts the comprehension. *)
Fixpoint comprehension {A B} (f : A → result B) (l : list A) : result (list B) :=
  match l with
  | [] => Ok []
  | a :: l' =>
      match f a with
      | Ok b =>
          match comprehension f l' with
          | Ok bs => Ok (b :: bs)
          | Raise e => Raise e
          end
      | Raise e => Raise e
      end
  end.

End Py.

Import Py.

(** ** The pyvizier data model

    The guides import the package [pyvizier] and do not contain it: the
    types below follow the data model of the specification. *)

Module pyvizier.

(** Modelled from the spec: the four primitive parameter types. The
    notebook spells the enumeration [pyvizier.ParamterType]. *)
Inductive ParamterType := DOUBLE | INTEGER | DISCRETE | CATEGORICAL.

(** Modelled from the spec: the scale types. *)
Inductive ScaleType := LINEAR | LOG | REVERSE_LOG | UNIFORM_DISCRETE.

(** Modelled from the spec: the status of a trial record. *)
Inductive TrialStatus := ACTIVE | COMPLETED | STOPPED.

Global Instance TrialStatus_eq_dec : EqDecision TrialStatus.
Proof. solve_decision. Defined.

(** Modelled from the spec: a parameter value, tagged with its type
    (a double, a signed integer, or a string). *)
Inductive ParameterValue :=
| VDouble (f : float)
| VInt (z : Z)
| VStr (s : string).

Definition value_eqb (a b : ParameterValue) : bool :=
  match a, b with
  | VDouble f, VDouble g => PrimFloat.eqb f g
  | VInt x, VInt y => x =? y
  | VStr s, VStr t => bool_decide (s = t)
  | _, _ => false
  end.

(** Modelled from the spec: bounds or feasible values, depending on the
    type. *)
Inductive Domain :=
| DoubleBounds (min_value max_value : float)
| IntegerBounds (min_value max_value : Z)
| DiscreteValues (values : list float)
| CategoricalValues (values : list string).

(** Modelled from the spec: the configuration of one parameter, with its
    conditional children; each child is guarded by the parent values that
    activate it. *)
Inductive ParameterConfig := mkParameterConfig {
  name : string;
  domain : Domain;
  scale_type : option ScaleType;
  default_value : option ParameterValue;
  children : list Child
}
with Child := mkChild {
  matching_values : list ParameterValue;
  child_config : ParameterConfig
}.

(** [parameter_config.type]. *)
Definition type (pc : ParameterConfig) : ParamterType :=
  match domain pc with
  | DoubleBounds _ _ => DOUBLE
  | IntegerBounds _ _ => INTEGER
  | DiscreteValues _ => DISCRETE
  | CategoricalValues _ => CATEGORICAL
  end.

(** [parameter_config.feasible_values], read by the guides on CATEGORICAL
    parameters only. *)
Definition feasible_values (pc : ParameterConfig) : list ParameterValue :=
  match domain pc with
  | DiscreteValues vs => VDouble <$> vs
  | CategoricalValues vs => VStr <$> vs
  | _ => []
  end.

(** Modelled from the spec: a search space; [search_space.parameters] are
    the parameters at its root. *)
Record SearchSpace := mkSearchSpace { parameters : list ParameterConfig }.

(** Modelled from the spec: the study specification, a search space with
    key-value metadata. *)
Record StudyConfig := mkStudyConfig {
  search_space : SearchSpace;
  metadata : gmap string string
}.

(** Modelled from the spec: a measurement maps metric names to reals. *)
Record Measurement := mkMeasurement { metrics : gmap string float }.

(** Modelled from the spec: the trial record (the class [pyvizier.Trial]
    is not part of the guides). A trial carries a datastore-assigned
    identifier, its parameter assignment, an optional measurement and an
    optional infeasibility reason; recording either completes it. *)
Record Trial := mkTrial {
  id : Z;
  trial_parameters : gmap string ParameterValue;
  final_measurement : option Measurement;
  infeasibility_reason : option string;
  stopped : bool
}.

(** Modelled from the spec: the status of a trial record; the presence of
    a measurement or of an infeasibility reason means COMPLETED. *)
Definition status (t : Trial) : TrialStatus :=
  match final_measurement t, infeasibility_reason t with
  | None, None => if stopped t then STOPPED else ACTIVE
  | _, _ => COMPLETED
  end.

(** Modelled from the spec: [trial.complete(measurement)] records the
    measurement. *)
Definition complete (t : Trial) (m : Measurement) : Trial :=
  mkTrial (id t) (trial_parameters t) (Some m) (infeasibility_reason t) (stopped t).

(** The attribute assignment [trial.infeasibility_reason = reason]. *)
Definition set_infeasibility_reason (t : Trial) (reason : string) : Trial :=
  mkTrial (id t) (trial_parameters t) (final_measurement t) (Some reason) (stopped t).

(** Modelled from the spec: a proposed assignment, not yet stamped with an
    identifier. *)
Record TrialSuggestion := mkTrialSuggestion {
  suggestion_parameters : gmap string ParameterValue
}.

(** Modelled from the spec: [pyvizier.MetadataDelta()], the empty set of
    opaque key-value annotations. *)
Definition MetadataDelta : gmap string string := ∅.

End pyvizier.

Import pyvizier.

(** ** writing_algorithms.ipynb *)

Module writing_algorithms.

(** [make_parameters(study_config, index)]: every CATEGORICAL parameter
    gets [feasible_values[index % categorical_size]]; any other type
    raises [ValueError]. *)
Fixpoint make_parameters_loop (params : list ParameterConfig) (index : Z)
    (parameter_dict : gmap string ParameterValue)
    : result (gmap string ParameterValue) :=
  match params with
  | [] => Ok parameter_dict
  | parameter_config :: rest =>
      match type parameter_config with
      | CATEGORICAL =>
          let feasible_values := feasible_values parameter_config in
          let categorical_size := Z.of_nat (length feasible_values) in
          if categorical_size =? 0 then Raise ZeroDivisionError
          else
            value ← getitem feasible_values (index mod categorical_size);
            make_parameters_loop rest index
              (<[name parameter_config := value]> parameter_dict)
      | _ => Raise ValueError
      end
  end.

Definition make_parameters (study_config : StudyConfig) (index : Z)
    : result (gmap string ParameterValue) :=
  make_parameters_loop (parameters (search_space study_config)) index ∅.

(** Modelled from the spec: the Datastore Client injected into a policy
    (the class [pythia.PolicySupporter] is not part of the guides). Every
    fetch reads the study's trials as the datastore holds them at that
    moment, in ascending identifier order; two fetches need not observe the
    same snapshot. [trials_at k] is what the [k]-th fetch observes and
    [fetches] counts the fetches made so far. *)
Record PolicySupporter := mkPolicySupporter {
  trials_at : nat → list Trial;
  fetches : nat
}.

(** Modelled from the spec: [GetTrials(status_matches=s)], the fetch
    filtered by status. *)
Definition GetTrials (status_matches : TrialStatus) (policy_supporter : PolicySupporter)
    : list Trial * PolicySupporter :=
  (filter (λ t, status t = status_matches)
     (trials_at policy_supporter (fetches policy_supporter)),
   mkPolicySupporter (trials_at policy_supporter) (S (fetches policy_supporter))).

(** [get_next_index(policy_supporter)]: the largest completed trial id, or
    0 when no trial is completed. *)
Definition get_next_index (policy_supporter : PolicySupporter) : Z * PolicySupporter :=
  let '(trials, policy_supporter) := GetTrials COMPLETED policy_supporter in
  let completed_trial_ids := id <$> trials in
  match completed_trial_ids with
  | [] => (0, policy_supporter)
  | x :: l => (max_from x l, policy_supporter)
  end.

(** Modelled from the spec: [pythia.SuggestRequest], a count with the study
    specification. *)
Record SuggestRequest := mkSuggestRequest {
  count : Z;
  study_config : StudyConfig
}.

(** Modelled from the spec: [pythia.SuggestDecision], the suggestions with
    a metadata delta. *)
Record SuggestDecision := mkSuggestDecision {
  suggestions : list TrialSuggestion;
  decision_metadata : gmap string string
}.

Module MyPolicy.

Record t := __init__ { _policy_supporter : PolicySupporter }.

(** The body of [for _ in range(request.count)], run [iterations] times.
    The supporter is threaded through: each round fetches again. *)
Fixpoint suggest_loop (iterations : nat) (request : SuggestRequest)
    (policy_supporter : PolicySupporter) (suggest_decision_list : list TrialSuggestion)
    : result (list TrialSuggestion) * PolicySupporter :=
  match iterations with
  | O => (Ok suggest_decision_list, policy_supporter)
  | S iterations =>
      let '(index, policy_supporter) := get_next_index policy_supporter in
      match make_parameters (study_config request) index with
      | Ok parameters =>
          suggest_loop iterations request policy_supporter
            (suggest_decision_list ++ [mkTrialSuggestion parameters])
      | Raise e => (Raise e, policy_supporter)
      end
  end.

(** [MyPolicy.suggest(request)]; the second component is the policy after
    the call (its supporter has served the fetches). *)
Definition suggest (self : t) (request : SuggestRequest) : result SuggestDecision * t :=
  let '(r, policy_supporter) :=
    suggest_loop (Z.to_nat (count request)) request (_policy_supporter self) [] in
  (suggest_decision_list ← r;
   mret (mkSuggestDecision suggest_decision_list MetadataDelta),
   __init__ policy_supporter).

End MyPolicy.

(** Modelled from the spec: [algorithms.CompletedTrials], the batch of
    newly completed trials handed to [update]. *)
Record CompletedTrials := mkCompletedTrials { completed : list Trial }.

Module MyDesigner.

Record t := mkMyDesigner {
  _study_config : StudyConfig;
  _completed_trials : list Trial
}.

Definition __init__ (study_config : StudyConfig) : t :=
  mkMyDesigner study_config [].

(** [update(delta)]: [self._completed_trials.extend(delta.completed)]. *)
Definition update (self : t) (delta : CompletedTrials) : t :=
  mkMyDesigner (_study_config self) (_completed_trials self ++ completed delta).

(** [suggest(count)], [count] being [None] when absent. *)
Definition suggest (self : t) (count : option Z)
    : result (list (gmap string ParameterValue)) :=
  match count with
  | None => Ok []
  | Some count =>
      let completed_trial_ids := id <$> _completed_trials self in
      current_index ← Py.max completed_trial_ids;
      comprehension
        (λ i, make_parameters (_study_config self) (current_index + i))
        (range count)
  end.

End MyDesigner.

End writing_algorithms.

(** ** search_spaces.ipynb *)

Module search_spaces.

Local Set Warnings "-inexact-float".

(** *** The search-space builder *)

(** Modelled from the spec: a handle into a search space (the class
    [pyvizier.SearchSpace] and its selectors are not part of the guides).
    A handle is the chain of selections [(parameter_name, matching_values)]
    leading from the root to its position. *)
Definition Handle : Type := list (string * list ParameterValue).

Definition select_root : Handle := [].

Definition select (h : Handle) (parameter_name : string)
    (matching_values : list ParameterValue) : Handle :=
  h ++ [(parameter_name, matching_values)].

(** Two guards are the same list of values. *)
Fixpoint values_eqb (a b : list ParameterValue) : bool :=
  match a, b with
  | [], [] => true
  | x :: a', y :: b' => value_eqb x y && values_eqb a' b'
  | _, _ => false
  end.

(** The configuration [pc] with its children replaced. *)
Definition with_children (pc : ParameterConfig) (cs : list Child) : ParameterConfig :=
  mkParameterConfig (name pc) (domain pc) (scale_type pc) (default_value pc) cs.

(** Replaces the first element that satisfies [p] by what [f] makes of it;
    [KeyError] when there is none. *)
Fixpoint update_first {A} (p : A → bool) (f : A → result A) (l : list A)
    : result (list A) :=
  match l with
  | [] => Raise KeyError
  | a :: l' =>
      if p a then (a' ← f a; mret (a' :: l'))
      else (r ← update_first p f l'; mret (a :: r))
  end.

(** Modelled from the spec: adding [new] below the selection chain [path],
    among the children guarded by [guard]. A name already used at that
    position is a [SchemaError]. *)
Fixpoint add_in_children (path : Handle) (guard : list ParameterValue)
    (new : ParameterConfig) (cs : list Child) : result (list Child) :=
  match path with
  | [] =>
      if existsb
           (λ c, values_eqb (matching_values c) guard
                 && bool_decide (name (child_config c) = name new)) cs
      then Raise SchemaError
      else Ok (cs ++ [mkChild guard new])
  | (parameter_name, guard') :: path' =>
      update_first
        (λ c, values_eqb (matching_values c) guard
              && bool_decide (name (child_config c) = parameter_name))
        (λ c, cs' ← add_in_children path' guard' new (children (child_config c));
              mret (mkChild (matching_values c) (with_children (child_config c) cs')))
        cs
  end.

(** Modelled from the spec: adding [new] at the position of the handle
    [h]; at the root a name already used there is a [SchemaError]. *)
Definition add_param (h : Handle) (new : ParameterConfig) (space : SearchSpace)
    : result SearchSpace :=
  match h with
  | [] =>
      if existsb (λ pc, bool_decide (name pc = name new)) (parameters space)
      then Raise SchemaError
      else Ok (mkSearchSpace (parameters space ++ [new]))
  | (parameter_name, guard) :: path =>
      ps ← update_first
             (λ pc, bool_decide (name pc = parameter_name))
             (λ pc, cs' ← add_in_children path guard new (children pc);
                    mret (with_children pc cs'))
             (parameters space);
      mret (mkSearchSpace ps)
  end.

(** Modelled from the spec: [add_float_param]; inverted bounds are a
    [SchemaError]. *)
Definition add_float_param (h : Handle) (name : string) (min_value max_value : float)
    (scale_type : option ScaleType) (space : SearchSpace) : result SearchSpace :=
  if PrimFloat.leb min_value max_value
  then add_param h (mkParameterConfig name (DoubleBounds min_value max_value) scale_type None []) space
  else Raise SchemaError.

(** Modelled from the spec: [add_int_param]. *)
Definition add_int_param (h : Handle) (name : string) (min_value max_value : Z)
    (space : SearchSpace) : result SearchSpace :=
  if min_value <=? max_value
  then add_param h (mkParameterConfig name (IntegerBounds min_value max_value) None None []) space
  else Raise SchemaError.

(** Modelled from the spec: [add_categorical_param]; an empty set of
    feasible values is a [SchemaError]. *)
Definition add_categorical_param (h : Handle) (name : string)
    (feasible_values : list string) (space : SearchSpace) : result SearchSpace :=
  match feasible_values with
  | [] => Raise SchemaError
  | _ => add_param h (mkParameterConfig name (CategoricalValues feasible_values) None None []) space
  end.

(** Modelled from the spec: [vz.ProblemStatement().search_space], the
    empty search space. *)
Definition ProblemStatement : SearchSpace := mkSearchSpace [].

(** Modelled from the spec: the active parameters of an assignment, by a
    walk from the root that follows the children whose guard contains the
    parent's assigned value. A parent without a value, or whose value
    matches no guard, contributes no children. *)
Fixpoint active_names (assignment : gmap string ParameterValue)
    (pc : ParameterConfig) : list string :=
  name pc ::
  match assignment !! name pc with
  | None => []
  | Some v =>
      (fix over_children (cs : list Child) : list string :=
         match cs with
         | [] => []
         | c :: cs' =>
             (if existsb (value_eqb v) (matching_values c)
              then active_names assignment (child_config c)
              else [])
             ++ over_children cs'
         end) (children pc)
  end.

Definition active_parameters (space : SearchSpace)
    (assignment : gmap string ParameterValue) : list string :=
  concat (active_names assignment <$> parameters space).

(** Modelled from the spec: flattening an assignment against a search
    space keeps exactly the values of the active parameters. *)
Definition flatten (space : SearchSpace) (assignment : gmap string ParameterValue)
    : gmap string ParameterValue :=
  filter (λ kv, kv.1 ∈ active_parameters space assignment) assignment.

(** *** Conditional search space *)

Definition conditional_problem : result SearchSpace :=
  let conditional_problem := ProblemStatement in
  let conditional_problem_root := select_root in
  conditional_problem ←
    add_categorical_param conditional_problem_root "optimizer" ["sgd"; "adam"]
      conditional_problem;
  (* SGD child parameters *)
  let sgd := select conditional_problem_root "optimizer" [VStr "sgd"] in
  conditional_problem ←
    add_float_param sgd "sgd_learning_rate" 0.0001 1.0 (Some LOG) conditional_problem;
  (* Adam child parameters *)
  let adam := select conditional_problem_root "optimizer" [VStr "adam"] in
  conditional_problem ←
    add_float_param adam "adam_learning_rate" 0.0001 1.0 (Some LOG) conditional_problem;
  conditional_problem ←
    add_float_param adam "adam_beta1" 0.0 1.0 (Some REVERSE_LOG) conditional_problem;
  add_float_param adam "adam_beta2" 0.0 1.0 (Some REVERSE_LOG) conditional_problem.

(** *** Combinatorial reparameterization *)

(** [str(n)]: the decimal numeral of [n]. *)
Definition str (n : nat) : string := pretty n.

(** [math.factorial(n)]. *)
Definition factorial (n : nat) : Z := Z.of_nat (fact n).

Section Lehmer.

(** The notebook's global [N]. *)
Variable N : nat.

(** [for n in range(N): ...add_int_param(name=str(n), min_value=0, max_value=n)]. *)
Fixpoint permutation_problem_loop (ns : list nat) (space : SearchSpace)
    : result SearchSpace :=
  match ns with
  | [] => Ok space
  | n :: rest =>
      space ← add_int_param select_root (str n) 0 (Z.of_nat n) space;
      permutation_problem_loop rest space
  end.

Definition permutation_problem : result SearchSpace :=
  permutation_problem_loop (seq 0 N) ProblemStatement.

(** [compute_index(trial)]: the index of the Lehmer code. A parameter that
    is missing or is not an integer makes the arithmetic (or, for a float,
    the list subscript that consumes the index) raise [TypeError]. *)
Fixpoint compute_index_loop (trial : Trial) (ns : list nat) (index : Z) : result Z :=
  match ns with
  | [] => Ok index
  | n :: rest =>
      match trial_parameters trial !! str n with
      | Some (VInt v) => compute_index_loop trial rest (index + v * factorial n)
      | _ => Raise TypeError
      end
  end.

Definition compute_index (trial : Trial) : result Z :=
  compute_index_loop trial (seq 0 N) 0.

(** [compute_permutation(index)]: the loop over [k in range(1, N + 1)]. *)
Fixpoint compute_permutation_loop (ks : list nat) (all_indices : list Z)
    (temp_index : Z) (output : list Z) : result (list Z) :=
  match ks with
  | [] => Ok output
  | k :: rest =>
      let factorial_value := factorial (N - k) in
      value ← getitem all_indices (temp_index / factorial_value);
      all_indices ← Py.remove value all_indices;
      compute_permutation_loop rest all_indices (temp_index mod factorial_value)
        (output ++ [value])
  end.

Definition compute_permutation (index : Z) : result (list Z) :=
  let all_indices := range (Z.of_nat N) in
  compute_permutation_loop (seq 1 N) all_indices index [].

(** [phi(trial)]: maps a suggestion to a permutation. *)
Definition phi (trial : Trial) : result (list Z) :=
  index ← compute_index trial;
  compute_permutation index.

End Lehmer.

Definition N : nat := 10.

(** Modelled from the spec: a typed value is consistent with a declared
    domain. *)
Definition in_domain (v : ParameterValue) (d : Domain) : bool :=
  match v, d with
  | VDouble f, DoubleBounds lo hi => PrimFloat.leb lo f && PrimFloat.leb f hi
  | VInt z, IntegerBounds lo hi => (lo <=? z) && (z <=? hi)
  | VDouble f, DiscreteValues vs => existsb (PrimFloat.eqb f) vs
  | VStr s, CategoricalValues vs => bool_decide (s ∈ vs)
  | _, _ => false
  end.

(** Modelled from the spec: an assignment over a flat search space gives
    every parameter a value of its domain, and nothing else. *)
Definition assignment_over (space : SearchSpace)
    (assignment : gmap string ParameterValue) : Prop :=
  (∀ pc, pc ∈ parameters space →
     ∃ v, assignment !! name pc = Some v ∧ in_domain v (domain pc) = true)
  ∧ (∀ k, is_Some (assignment !! k) → ∃ pc, pc ∈ parameters space ∧ name pc = k).

(** *** Infeasibility *)

Definition disk_problem : result SearchSpace :=
  let disk_problem := ProblemStatement in
  let disk_problem_root := select_root in
  disk_problem ← add_float_param disk_problem_root "x" (-1.0) 1.0 None disk_problem;
  add_float_param disk_problem_root "y" (-1.0) 1.0 None disk_problem.

(** [parameters[key]] of a trial: [KeyError] when absent. The disk problem
    declares its parameters DOUBLE, so a value of another type is outside
    the search space; the arithmetic below is the one on doubles and such a
    value is a [TypeError]. *)
Definition getfloat (parameters : gmap string ParameterValue) (key : string)
    : result float :=
  match parameters !! key with
  | None => Raise KeyError
  | Some (VDouble f) => Ok f
  | Some _ => Raise TypeError
  end.

(** [evaluate(trial)]. The body reads [suggestion.parameters], and
    [suggestion] is not a local name: it is looked up among the notebook's
    globals, which is the first argument here ([None]: the name is unbound,
    as in the notebook itself). [x**2] is the product [x * x] on doubles. *)
Definition evaluate (suggestion : option Trial) (trial : Trial) : result Trial :=
  match suggestion with
  | None => Raise NameError
  | Some suggestion =>
      x ← getfloat (trial_parameters suggestion) "x";
      y ← getfloat (trial_parameters suggestion) "y";
      if PrimFloat.leb (x * x + y * y)%float 1%float
      then Ok (complete trial (mkMeasurement {[ "sum" := (x + y)%float ]}))
      else Ok (set_infeasibility_reason trial "Outside of range.")
  end.

End search_spaces.

(** * Properties *)

Import writing_algorithms.

(** ** Python runtime facts *)

Section PyFacts.

Context {A : Type}.

Lemma getitem_in_range (l : list A) (i : Z) :
  0 ≤ i < Z.of_nat (length l) →
  ∃ a, getitem l i = Ok a ∧ l !! Z.to_nat i = Some a.
Proof.
  intros [Hlo Hhi]. unfold getitem.
  destruct (Z.ltb_spec i 0) as [Hneg|_]; [lia|].
  destruct (Z.ltb_spec i 0) as [Hneg|_]; [lia|].
  destruct (l !! Z.to_nat i) as [a|] eqn:Hl.
  - by exists a.
  - apply lookup_ge_None in Hl. lia.
Qed.

Lemma comprehension_length {B} (f : A → result B) (l : list A) (bs : list B) :
  comprehension f l = Ok bs → length bs = length l.
Proof.
  revert bs. induction l as [|a l IH]; intros bs; simpl.
  - by intros [= <-].
  - destruct (f a) as [b|e]; [|done].
    destruct (comprehension f l) as [bs'|e]; [|done].
    intros [= <-]. simpl. f_equal. by apply IH.
Qed.

Lemma comprehension_total {B} (f : A → result B) (l : list A) :
  (∀ a, a ∈ l → returns (f a)) → returns (comprehension f l).
Proof.
  induction l as [|a l IH]; intros Hf; simpl.
  - by eexists.
  - destruct (Hf a) as [b ->]; [apply list_elem_of_here|].
    destruct IH as [bs ->]; [|by eexists].
    intros a' Ha'. apply Hf. by apply list_elem_of_further.
Qed.

End PyFacts.

Lemma range_length (n : Z) : length (range n) = Z.to_nat n.
Proof. unfold range. by rewrite length_map, length_seq. Qed.

(** ** [make_parameters] *)

(** A search space the toy algorithm supports: every root parameter is
    CATEGORICAL with at least one feasible value. *)
Definition categorical_space (study_config : StudyConfig) : Prop :=
  ∀ pc, pc ∈ parameters (search_space study_config) →
    type pc = CATEGORICAL ∧ feasible_values pc ≠ [].

(** [feasible_values[index % len(feasible_values)]]. *)
Definition cycled (pc : ParameterConfig) (index : Z) : option ParameterValue :=
  feasible_values pc !! Z.to_nat (index mod Z.of_nat (length (feasible_values pc))).

(** One round of the loop on a CATEGORICAL parameter. *)
Lemma make_parameters_loop_step (pc : ParameterConfig) (rest : list ParameterConfig)
    (index : Z) (acc : gmap string ParameterValue) :
  type pc = CATEGORICAL → feasible_values pc ≠ [] →
  ∃ v, cycled pc index = Some v
       ∧ make_parameters_loop (pc :: rest) index acc
         = make_parameters_loop rest index (<[name pc := v]> acc).
Proof.
  intros Hty Hne. simpl. rewrite Hty. unfold cycled.
  assert (0 < Z.of_nat (length (feasible_values pc))) as Hpos.
  { destruct (feasible_values pc); [done|simpl; lia]. }
  destruct (Z.eqb_spec (Z.of_nat (length (feasible_values pc))) 0) as [?|_]; [lia|].
  destruct (getitem_in_range (feasible_values pc)
              (index mod Z.of_nat (length (feasible_values pc)))) as (v & -> & Hv).
  { apply Z.mod_pos_bound. lia. }
  by exists v.
Qed.

Lemma make_parameters_loop_spec (params : list ParameterConfig) (index : Z)
    (acc : gmap string ParameterValue) :
  (∀ pc, pc ∈ params → type pc = CATEGORICAL ∧ feasible_values pc ≠ []) →
  NoDup (name <$> params) →
  ∃ d, make_parameters_loop params index acc = Ok d
       ∧ (∀ pc, pc ∈ params → is_Some (cycled pc index) ∧ d !! name pc = cycled pc index)
       ∧ (∀ k, k ∉ name <$> params → d !! k = acc !! k).
Proof.
  revert acc. induction params as [|pc rest IH]; intros acc Hcat Hnd.
  - exists acc. split; [done|]. split; [|done]. intros pc Hpc. by apply elem_of_nil in Hpc.
  - simpl in Hnd. apply NoDup_cons in Hnd as [Hfresh Hnd].
    destruct (Hcat pc) as [Hty Hne]; [apply list_elem_of_here|].
    destruct (make_parameters_loop_step pc rest index acc Hty Hne) as (v & Hv & ->).
    destruct (IH (<[name pc := v]> acc)) as (d & Hd & Hin & Hout); [|done|].
    { intros pc' Hpc'. apply Hcat. by apply list_elem_of_further. }
    exists d. split; [done|]. split.
    + intros pc' Hpc'. apply elem_of_cons in Hpc' as [->|Hpc']; [|by apply Hin].
      rewrite Hv. split; [by eexists|].
      rewrite Hout by done. apply lookup_insert_eq.
    + intros k Hk. simpl in Hk. apply not_elem_of_cons in Hk as [Hk1 Hk2].
      rewrite Hout by done. by apply lookup_insert_ne.
Qed.

Lemma make_parameters_loop_returns (params : list ParameterConfig) (index : Z)
    (acc : gmap string ParameterValue) :
  (∀ pc, pc ∈ params → type pc = CATEGORICAL ∧ feasible_values pc ≠ []) →
  returns (make_parameters_loop params index acc).
Proof.
  revert acc. induction params as [|pc rest IH]; intros acc Hcat.
  - by eexists.
  - destruct (Hcat pc) as [Hty Hne]; [apply list_elem_of_here|].
    destruct (make_parameters_loop_step pc rest index acc Hty Hne) as (v & _ & ->).
    apply IH. intros pc' Hpc'. apply Hcat. by apply list_elem_of_further.
Qed.

Lemma make_parameters_returns (study_config : StudyConfig) (index : Z) :
  categorical_space study_config → returns (make_parameters study_config index).
Proof. intros Hcat. by apply make_parameters_loop_returns. Qed.

(** The flat problem's CATEGORICAL parameter. *)
Definition abc_config : StudyConfig :=
  mkStudyConfig
    (mkSearchSpace
       [mkParameterConfig "categorical" (CategoricalValues ["a"; "b"; "c"]) None None []])
    ∅.

(** C5. With one CATEGORICAL parameter whose feasible values are "a", "b",
    "c", [make_parameters] at index 4 proposes "b"; and on every search
    space of CATEGORICAL parameters with distinct names and non-empty
    feasible values, [make_parameters] returns the dictionary that gives
    each parameter [feasible_values[index mod len(feasible_values)]] and
    has no other key. *)
Theorem make_parameters_categorical_cycling :
  make_parameters abc_config 4 = Ok {[ "categorical" := VStr "b" ]}
  ∧ ∀ (study_config : StudyConfig) (index : Z),
      categorical_space study_config →
      NoDup (name <$> parameters (search_space study_config)) →
      ∃ d, make_parameters study_config index = Ok d
           ∧ (∀ pc, pc ∈ parameters (search_space study_config) →
                is_Some (cycled pc index) ∧ d !! name pc = cycled pc index)
           ∧ (∀ k, is_Some (d !! k) →
                k ∈ name <$> parameters (search_space study_config)).
Proof.
  split; [vm_compute; reflexivity|].
  intros study_config index Hcat Hnd. unfold make_parameters.
  destruct (make_parameters_loop_spec _ index ∅ Hcat Hnd) as (d & Hd & Hin & Hout).
  exists d. split; [done|]. split; [done|].
  intros k [v Hk].
  destruct (decide (k ∈ name <$> parameters (search_space study_config))) as [|Hnk]; [done|].
  rewrite (Hout k Hnk), lookup_empty in Hk. done.
Qed.

Lemma make_parameters_categorical_cycling_witness :
  ∃ d, make_parameters abc_config 4 = Ok d
       ∧ d !! "categorical" = Some (VStr "b").
Proof.
  destruct (proj2 make_parameters_categorical_cycling abc_config 4)
    as (d & Hd & Hin & _).
  - intros pc Hpc. apply list_elem_of_singleton in Hpc as ->. by split.
  - simpl. apply NoDup_singleton.
  - exists d. split; [done|].
    destruct (Hin (mkParameterConfig "categorical" (CategoricalValues ["a"; "b"; "c"]) None None []))
      as [_ Hb]; [apply list_elem_of_here|]. exact Hb.
Defined.

(** ** [MyDesigner] *)

(** A batch with no trial. *)
Definition empty_batch : CompletedTrials := mkCompletedTrials [].

Lemma update_empty_batch (self : MyDesigner.t) (delta : CompletedTrials) :
  completed delta = [] → MyDesigner.update self delta = self.
Proof.
  intros Hd. destruct self as [cfg trials]. unfold MyDesigner.update. simpl.
  by rewrite Hd, app_nil_r.
Qed.

Lemma updates_empty_batches (self : MyDesigner.t) (deltas : list CompletedTrials) :
  (∀ delta, delta ∈ deltas → completed delta = []) →
  foldl MyDesigner.update self deltas = self.
Proof.
  induction deltas as [|delta deltas IH]; intros Hd; simpl; [done|].
  rewrite update_empty_batch by (apply Hd, list_elem_of_here).
  apply IH. intros d Hin. by apply Hd, list_elem_of_further.
Qed.

Lemma designer_suggest_length (self : MyDesigner.t) (n : Z)
    (l : list (gmap string ParameterValue)) :
  MyDesigner.suggest self (Some n) = Ok l → length l = Z.to_nat n.
Proof.
  unfold MyDesigner.suggest.
  destruct (Py.max _) as [m|e]; simpl; [|done].
  intros Hl. apply comprehension_length in Hl. by rewrite range_length in Hl.
Qed.

Lemma designer_suggest_returns (self : MyDesigner.t) (n : Z) :
  categorical_space (MyDesigner._study_config self) →
  MyDesigner._completed_trials self ≠ [] →
  returns (MyDesigner.suggest self (Some n)).
Proof.
  intros Hcat Hne. unfold MyDesigner.suggest.
  destruct (MyDesigner._completed_trials self) as [|t ts]; [done|]. simpl.
  apply comprehension_total. intros i _. by apply make_parameters_returns.
Qed.

(** C7. Whatever the designer has observed, [suggest] without a count
    returns the empty sequence. *)
Theorem designer_suggest_absent_count :
  ∀ (self : MyDesigner.t) (deltas : list CompletedTrials),
    MyDesigner.suggest (foldl MyDesigner.update self deltas) None = Ok [].
Proof.
  intros self deltas.
  destruct (foldl MyDesigner.update self deltas) as [study_config completed_trials].
  unfold MyDesigner.suggest. reflexivity.
Qed.

(** C8. Any number of [update] calls with an empty batch leaves the
    designer as it was, so every later [suggest] answers as it would have
    without them; [update] is a total function, it cannot fail. *)
Theorem designer_update_empty_idempotent :
  ∀ (self : MyDesigner.t) (k : nat) (count : option Z),
    Nat.iter k (λ d, MyDesigner.update d empty_batch) self = self
    ∧ MyDesigner.suggest (Nat.iter k (λ d, MyDesigner.update d empty_batch) self) count
      = MyDesigner.suggest self count.
Proof.
  intros self k count.
  assert (Nat.iter k (λ d, MyDesigner.update d empty_batch) self = self) as Hk.
  { induction k as [|k IH]; simpl; [done|]. rewrite IH. by apply update_empty_batch. }
  by rewrite Hk.
Qed.

(** C9. A designer that has observed no completed trial (every batch it
    was updated with was empty) raises on [suggest(count)] for every
    [count >= 1], whatever the study configuration: the maximum of the
    empty list of identifiers is taken. *)
Theorem designer_suggest_without_trials_raises :
  ∀ (study_config : StudyConfig) (deltas : list CompletedTrials) (count : Z),
    (∀ delta, delta ∈ deltas → completed delta = []) →
    1 ≤ count →
    MyDesigner.suggest (foldl MyDesigner.update (MyDesigner.__init__ study_config) deltas)
      (Some count) = Raise ValueError.
Proof.
  intros study_config deltas count Hd _.
  by rewrite updates_empty_batches.
Qed.

Lemma designer_suggest_without_trials_raises_witness :
  MyDesigner.suggest
    (foldl MyDesigner.update (MyDesigner.__init__ abc_config) [empty_batch; empty_batch])
    (Some 3) = Raise ValueError.
Proof.
  apply (designer_suggest_without_trials_raises abc_config [empty_batch; empty_batch] 3).
  - intros delta Hin.
    apply elem_of_cons in Hin as [->|Hin]; [reflexivity|].
    apply list_elem_of_singleton in Hin as ->. reflexivity.
  - lia.
Defined.

(** The scenario's search space as the specification words it: one INTEGER
    parameter "x" in [1, 10]. *)
Definition integer_x_config : StudyConfig :=
  mkStudyConfig
    (mkSearchSpace [mkParameterConfig "x" (IntegerBounds 1 10) None None []]) ∅.

(** The same range as the categories "1", ..., "10". *)
Definition categorical_x_config : StudyConfig :=
  mkStudyConfig
    (mkSearchSpace
       [mkParameterConfig "x"
          (CategoricalValues ["1"; "2"; "3"; "4"; "5"; "6"; "7"; "8"; "9"; "10"])
          None None []]) ∅.

(** A completed trial with identifier [i] and assignment [x = v]. *)
Definition completed_trial (i : Z) (v : ParameterValue) : Trial :=
  mkTrial i {[ "x" := v ]} (Some (mkMeasurement ∅)) None false.

(** C2, as stated: on the INTEGER search space the designer updated with
    the trials 1, 2, 3 does not return x = 4, 5, 6 from [suggest(3)]; it
    raises [ValueError]. *)
Lemma designer_cycling_integer_counterexample :
  MyDesigner.suggest
    (MyDesigner.update (MyDesigner.__init__ integer_x_config)
       (mkCompletedTrials
          [completed_trial 1 (VInt 1); completed_trial 2 (VInt 2); completed_trial 3 (VInt 3)]))
    (Some 3) = Raise ValueError
  ∧ MyDesigner.suggest
      (MyDesigner.update (MyDesigner.__init__ integer_x_config)
         (mkCompletedTrials
            [completed_trial 1 (VInt 1); completed_trial 2 (VInt 2); completed_trial 3 (VInt 3)]))
      (Some 3)
    ≠ Ok [ {[ "x" := VInt 4 ]}; {[ "x" := VInt 5 ]}; {[ "x" := VInt 6 ]} ].
Proof.
  assert (MyDesigner.suggest
            (MyDesigner.update (MyDesigner.__init__ integer_x_config)
               (mkCompletedTrials
                  [completed_trial 1 (VInt 1); completed_trial 2 (VInt 2);
                   completed_trial 3 (VInt 3)]))
            (Some 3) = Raise ValueError) as Hraise by (vm_compute; reflexivity).
  split; [exact Hraise|]. rewrite Hraise. discriminate.
Qed.

(** C2, amended. On the search space with one CATEGORICAL parameter "x"
    whose feasible values are "1", ..., "10", a designer that starts with
    no completed trial and is updated with three completed trials of
    identifiers 1, 2, 3 returns x = "4", "5", "6" from [suggest(3)].
    In general the i-th suggestion (from 0) is [make_parameters] at index
    [max(completed ids) + i]. A search space with an INTEGER parameter
    makes the call raise [ValueError]. *)
Theorem designer_cycling_categorical :
  ∀ (t1 t2 t3 : Trial),
    id t1 = 1 → id t2 = 2 → id t3 = 3 →
    MyDesigner.suggest
      (MyDesigner.update (MyDesigner.__init__ categorical_x_config)
         (mkCompletedTrials [t1; t2; t3]))
      (Some 3)
    = Ok [ {[ "x" := VStr "4" ]}; {[ "x" := VStr "5" ]}; {[ "x" := VStr "6" ]} ]
    ∧ (∀ (self : MyDesigner.t) (count m : Z),
         Py.max (id <$> MyDesigner._completed_trials self) = Ok m →
         MyDesigner.suggest self (Some count)
         = comprehension (λ i, make_parameters (MyDesigner._study_config self) (m + i))
             (range count))
    ∧ (∀ (self : MyDesigner.t) (count : Z) pc,
         MyDesigner._completed_trials self ≠ [] →
         1 ≤ count →
         parameters (search_space (MyDesigner._study_config self)) = [pc] →
         type pc = INTEGER →
         MyDesigner.suggest self (Some count) = Raise ValueError).
Proof.
  intros t1 t2 t3 H1 H2 H3. split; [|split].
  - unfold MyDesigner.suggest, MyDesigner.update. simpl. rewrite H1, H2, H3.
    vm_compute. reflexivity.
  - intros self count m Hm. unfold MyDesigner.suggest. by rewrite Hm.
  - intros self count pc Hne Hcount Hps Hty. unfold MyDesigner.suggest.
    destruct (MyDesigner._completed_trials self) as [|t ts]; [done|]. simpl.
    unfold range. destruct (Z.to_nat count) as [|n] eqn:Hn; [lia|]. simpl.
    unfold make_parameters. rewrite Hps. simpl. by rewrite Hty.
Qed.

Lemma designer_cycling_categorical_witness :
  MyDesigner.suggest
    (MyDesigner.update (MyDesigner.__init__ categorical_x_config)
       (mkCompletedTrials
          [completed_trial 1 (VStr "1"); completed_trial 2 (VStr "2");
           completed_trial 3 (VStr "3")]))
    (Some 3)
  = Ok [ {[ "x" := VStr "4" ]}; {[ "x" := VStr "5" ]}; {[ "x" := VStr "6" ]} ].
Proof.
  apply (designer_cycling_categorical
           (completed_trial 1 (VStr "1")) (completed_trial 2 (VStr "2"))
           (completed_trial 3 (VStr "3"))); reflexivity.
Defined.

(** ** [MyPolicy] *)

(** The completed trials that the [k]-th coming fetch of a supporter
    returns. *)
Definition fetched (policy_supporter : PolicySupporter) (k : nat) : list Trial :=
  filter (λ t, status t = COMPLETED)
    (trials_at policy_supporter (fetches policy_supporter + k)%nat).

(** What [get_next_index] makes of one fetched history. *)
Definition index_of_history (history : list Trial) : Z :=
  match id <$> history with
  | [] => 0
  | x :: l => max_from x l
  end.

(** [suggest] as a function of the study configuration, one fetched
    history and the count. *)
Definition suggest_of_history (study_config : StudyConfig) (history : list Trial)
    (count : Z) : result SuggestDecision :=
  match Z.to_nat count with
  | O => Ok (mkSuggestDecision [] MetadataDelta)
  | S _ =>
      parameters ← make_parameters study_config (index_of_history history);
      mret (mkSuggestDecision
              (replicate (Z.to_nat count) (mkTrialSuggestion parameters))
              MetadataDelta)
  end.

Definition served (policy_supporter : PolicySupporter) : PolicySupporter :=
  mkPolicySupporter (trials_at policy_supporter) (S (fetches policy_supporter)).

Lemma get_next_index_fetched (policy_supporter : PolicySupporter) :
  get_next_index policy_supporter
  = (index_of_history (fetched policy_supporter 0), served policy_supporter).
Proof.
  unfold get_next_index, GetTrials, index_of_history, fetched, served.
  rewrite Nat.add_0_r.
  by destruct (id <$> filter _ _).
Qed.

Lemma fetched_served (policy_supporter : PolicySupporter) (k : nat) :
  fetched (served policy_supporter) k = fetched policy_supporter (S k).
Proof. unfold fetched, served. simpl. by rewrite Nat.add_succ_r. Qed.

Lemma suggest_loop_deterministic (n : nat) (request : SuggestRequest)
    (ps1 ps2 : PolicySupporter) (acc : list TrialSuggestion) :
  (∀ k, (k < n)%nat → fetched ps1 k = fetched ps2 k) →
  (MyPolicy.suggest_loop n request ps1 acc).1
  = (MyPolicy.suggest_loop n request ps2 acc).1.
Proof.
  revert ps1 ps2 acc. induction n as [|n IH]; intros ps1 ps2 acc Hf; simpl; [done|].
  rewrite !get_next_index_fetched, (Hf 0%nat) by lia.
  destruct (make_parameters _ _) as [parameters|e]; [|done].
  apply IH. intros k Hk. rewrite !fetched_served. apply Hf. lia.
Qed.

Lemma suggest_loop_stable (n : nat) (request : SuggestRequest)
    (ps : PolicySupporter) (history : list Trial) (acc : list TrialSuggestion) :
  (∀ k, (k < n)%nat → fetched ps k = history) →
  (MyPolicy.suggest_loop n request ps acc).1
  = match n with
    | O => Ok acc
    | S _ =>
        parameters ← make_parameters (study_config request) (index_of_history history);
        mret (acc ++ replicate n (mkTrialSuggestion parameters))
    end.
Proof.
  revert ps acc. induction n as [|n IH]; intros ps acc Hf; [done|].
  simpl. rewrite get_next_index_fetched, (Hf 0%nat) by lia.
  destruct (make_parameters _ _) as [parameters|e] eqn:Hmp; [|done].
  rewrite IH by (intros k Hk; rewrite fetched_served; apply Hf; lia).
  destruct n as [|n]; simpl; [done|].
  by rewrite <- app_assoc.
Qed.

Lemma suggest_loop_length (n : nat) (request : SuggestRequest)
    (ps ps' : PolicySupporter) (acc l : list TrialSuggestion) :
  MyPolicy.suggest_loop n request ps acc = (Ok l, ps') →
  length l = (length acc + n)%nat.
Proof.
  revert ps acc. induction n as [|n IH]; intros ps acc; simpl.
  - intros [= <- _]. lia.
  - destruct (get_next_index ps) as [index ps1].
    destruct (make_parameters _ _) as [parameters|e]; [|done].
    intros Hl. apply IH in Hl. rewrite length_app in Hl. simpl in Hl. lia.
Qed.

Lemma suggest_loop_returns (n : nat) (request : SuggestRequest)
    (ps : PolicySupporter) (acc : list TrialSuggestion) :
  categorical_space (study_config request) →
  returns (MyPolicy.suggest_loop n request ps acc).1.
Proof.
  intros Hcat. revert ps acc. induction n as [|n IH]; intros ps acc; simpl.
  - by eexists.
  - destruct (get_next_index ps) as [index ps1].
    destruct (make_parameters_returns (study_config request) index Hcat) as [d ->].
    apply IH.
Qed.

Lemma policy_suggest_outcome (self : MyPolicy.t) (request : SuggestRequest) :
  (MyPolicy.suggest self request).1
  = (l ← (MyPolicy.suggest_loop (Z.to_nat (count request)) request
            (MyPolicy._policy_supporter self) []).1;
     mret (mkSuggestDecision l MetadataDelta)).
Proof. unfold MyPolicy.suggest. by destruct (MyPolicy.suggest_loop _ _ _ _). Qed.

(** C1. Two policies, each with a supporter of its own (fresh or having
    served any number of fetches before), that are asked the same request
    and whose fetches return the same completed trials, give the same
    outcome: the same sequence of suggestions, hence the same set of
    values, or the same exception. When every fetch of the call returns one
    history, the outcome is [suggest_of_history] of the study
    configuration, that history and the count. *)
Theorem policy_suggest_deterministic :
  ∀ (ps1 ps2 : PolicySupporter) (request : SuggestRequest),
    (∀ k, (k < Z.to_nat (count request))%nat → fetched ps1 k = fetched ps2 k) →
    (MyPolicy.suggest (MyPolicy.__init__ ps1) request).1
    = (MyPolicy.suggest (MyPolicy.__init__ ps2) request).1
    ∧ (∀ history,
         (∀ k, (k < Z.to_nat (count request))%nat → fetched ps1 k = history) →
         (MyPolicy.suggest (MyPolicy.__init__ ps1) request).1
         = suggest_of_history (study_config request) history (count request)).
Proof.
  intros ps1 ps2 request Hf. split.
  - rewrite !policy_suggest_outcome. simpl.
    by rewrite (suggest_loop_deterministic _ request ps1 ps2 [] Hf).
  - intros history Hh. rewrite policy_suggest_outcome. simpl.
    rewrite (suggest_loop_stable _ request ps1 history [] Hh).
    unfold suggest_of_history.
    destruct (Z.to_nat (count request)) as [|n]; [done|].
    by destruct (make_parameters _ _).
Qed.

(** Two datastores for the flat categorical study: the second one also
    holds a trial that is still active, and its supporter has already
    served five fetches. *)
Definition supporter_a : PolicySupporter :=
  mkPolicySupporter
    (λ _, [completed_trial 1 (VStr "a"); completed_trial 2 (VStr "b")]) 0.

Definition supporter_b : PolicySupporter :=
  mkPolicySupporter
    (λ _, [completed_trial 1 (VStr "a"); completed_trial 2 (VStr "b");
           mkTrial 3 {[ "x" := VStr "c" ]} None None false]) 5.

Example get_next_index_supporter_a : (get_next_index supporter_a).1 = 2.
Proof. reflexivity. Qed.

(** Every round of one call fetches the same maximum, so the policy
    proposes the same assignment [count] times. *)
Example policy_suggest_supporter_a :
  (MyPolicy.suggest (MyPolicy.__init__ supporter_a) (mkSuggestRequest 2 abc_config)).1
  = Ok (mkSuggestDecision
          [mkTrialSuggestion {[ "categorical" := VStr "c" ]};
           mkTrialSuggestion {[ "categorical" := VStr "c" ]}]
          MetadataDelta).
Proof. vm_compute. reflexivity. Qed.

Lemma policy_suggest_deterministic_witness :
  (MyPolicy.suggest (MyPolicy.__init__ supporter_a) (mkSuggestRequest 2 abc_config)).1
  = (MyPolicy.suggest (MyPolicy.__init__ supporter_b) (mkSuggestRequest 2 abc_config)).1.
Proof.
  apply (policy_suggest_deterministic supporter_a supporter_b (mkSuggestRequest 2 abc_config)).
  intros k _. reflexivity.
Defined.

(** C6. For a count [n >= 0], a sequence returned by [MyPolicy.suggest] or
    by [MyDesigner.suggest(n)] has at most [n] elements (exactly [n]); and
    both do return one on a search space of CATEGORICAL parameters with
    non-empty feasible values, the designer once it has observed a
    completed trial. *)
Theorem suggest_at_most_count :
  ∀ (n : Z), 0 ≤ n →
    (∀ (self self' : MyPolicy.t) (request : SuggestRequest) (decision : SuggestDecision),
       count request = n →
       MyPolicy.suggest self request = (Ok decision, self') →
       Z.of_nat (length (suggestions decision)) ≤ n)
    ∧ (∀ (self : MyDesigner.t) (l : list (gmap string ParameterValue)),
         MyDesigner.suggest self (Some n) = Ok l →
         Z.of_nat (length l) ≤ n)
    ∧ (∀ (self : MyPolicy.t) (request : SuggestRequest),
         count request = n →
         categorical_space (study_config request) →
         ∃ decision, (MyPolicy.suggest self request).1 = Ok decision
                     ∧ Z.of_nat (length (suggestions decision)) = n)
    ∧ (∀ (self : MyDesigner.t),
         categorical_space (MyDesigner._study_config self) →
         MyDesigner._completed_trials self ≠ [] →
         ∃ l, MyDesigner.suggest self (Some n) = Ok l ∧ Z.of_nat (length l) = n).
Proof.
  intros n Hn. repeat split.
  - intros self self' request decision Hc. unfold MyPolicy.suggest.
    destruct (MyPolicy.suggest_loop _ _ _ _) as [[l|e] ps'] eqn:Hl; simpl; [|done].
    intros [= <- _]. simpl. apply suggest_loop_length in Hl. simpl in Hl. lia.
  - intros self l Hl. apply designer_suggest_length in Hl. lia.
  - intros self request Hc Hcat. rewrite policy_suggest_outcome.
    destruct (MyPolicy.suggest_loop (Z.to_nat (count request)) request
                (MyPolicy._policy_supporter self) []) as [r ps'] eqn:Hl.
    destruct (suggest_loop_returns (Z.to_nat (count request)) request
                (MyPolicy._policy_supporter self) [] Hcat) as [l Hr].
    rewrite Hl in Hr. simpl in Hr. subst r. simpl.
    eexists. split; [done|]. simpl.
    apply suggest_loop_length in Hl. simpl in Hl. lia.
  - intros self Hcat Hne.
    destruct (designer_suggest_returns self n Hcat Hne) as [l Hl].
    exists l. split; [done|]. apply designer_suggest_length in Hl. lia.
Qed.

Lemma suggest_at_most_count_witness :
  ∃ l, MyDesigner.suggest
         (MyDesigner.update (MyDesigner.__init__ abc_config)
            (mkCompletedTrials [completed_trial 7 (VStr "a")]))
         (Some 2) = Ok l
       ∧ Z.of_nat (length l) ≤ 2.
Proof.
  exists [ {[ "categorical" := VStr "b" ]}; {[ "categorical" := VStr "c" ]} ].
  split; [reflexivity|].
  apply (proj1 (proj2 (suggest_at_most_count 2 ltac:(lia)))
           (MyDesigner.update (MyDesigner.__init__ abc_config)
              (mkCompletedTrials [completed_trial 7 (VStr "a")]))).
  reflexivity.
Defined.

(** ** Conditional search space *)

Import search_spaces.

(** The search space that the notebook's calls build. *)
Definition conditional_space : SearchSpace :=
  match conditional_problem with
  | Ok space => space
  | Raise _ => ProblemStatement
  end.

Lemma conditional_problem_builds : conditional_problem = Ok conditional_space.
Proof. by vm_compute. Qed.

(** The root holds "optimizer"; its children are guarded by "sgd" and by
    "adam". *)
Example conditional_space_shape :
  (λ pc, (name pc, (λ c, (matching_values c, name (child_config c))) <$> children pc))
    <$> parameters conditional_space
  = [("optimizer",
      [([VStr "sgd"], "sgd_learning_rate");
       ([VStr "adam"], "adam_learning_rate");
       ([VStr "adam"], "adam_beta1");
       ([VStr "adam"], "adam_beta2")])].
Proof. vm_compute. reflexivity. Qed.

(** A name used twice at one position is refused. *)
Example conditional_space_collision :
  add_float_param (select select_root "optimizer" [VStr "adam"]) "adam_beta1" 0 1 None
    conditional_space = Raise SchemaError.
Proof. vm_compute. reflexivity. Qed.

Lemma active_conditional (assignment : gmap string ParameterValue) :
  active_parameters conditional_space assignment
  = "optimizer" ::
    match assignment !! "optimizer" with
    | None => []
    | Some v =>
        (if value_eqb v (VStr "sgd") then ["sgd_learning_rate"] else [])
        ++ (if value_eqb v (VStr "adam")
            then ["adam_learning_rate"; "adam_beta1"; "adam_beta2"] else [])
    end.
Proof.
  unfold active_parameters.
  let space := eval vm_compute in conditional_space in
  change conditional_space with space.
  cbn -[value_eqb].
  destruct (assignment !! "optimizer") as [v|]; [|done].
  destruct (assignment !! "sgd_learning_rate"), (assignment !! "adam_learning_rate"),
    (assignment !! "adam_beta1"), (assignment !! "adam_beta2"),
    (value_eqb v (VStr "sgd")), (value_eqb v (VStr "adam")); reflexivity.
Qed.

Lemma flatten_key (space : SearchSpace) (assignment : gmap string ParameterValue)
    (k : string) :
  is_Some (flatten space assignment !! k) →
  k ∈ active_parameters space assignment ∧ flatten space assignment !! k = assignment !! k.
Proof.
  intros [v Hv]. unfold flatten in *.
  apply map_lookup_filter_Some in Hv as [Hk Hin]. simpl in Hin.
  split; [done|]. rewrite Hk. by apply map_lookup_filter_Some.
Qed.

(** C4. On the conditional search space of the notebook, the flattened
    assignment of any assignment with optimizer = "sgd" has no key other
    than "optimizer" and "sgd_learning_rate", so none that starts with
    "adam_"; with optimizer = "adam" it has no key that starts with "sgd_";
    and in any search space a flattened assignment holds active parameters
    only. *)
Theorem flatten_conditional_problem :
  ∀ (space : SearchSpace) (assignment : gmap string ParameterValue),
    conditional_problem = Ok space →
    (assignment !! "optimizer" = Some (VStr "sgd") →
       ∀ k, is_Some (flatten space assignment !! k) →
         (k = "optimizer" ∨ k = "sgd_learning_rate") ∧ String.prefix "adam_" k = false)
    ∧ (assignment !! "optimizer" = Some (VStr "adam") →
         ∀ k, is_Some (flatten space assignment !! k) →
           (k = "optimizer" ∨ k = "adam_learning_rate" ∨ k = "adam_beta1" ∨ k = "adam_beta2")
           ∧ String.prefix "sgd_" k = false)
    ∧ (∀ (any : SearchSpace) k, is_Some (flatten any assignment !! k) →
         k ∈ active_parameters any assignment).
Proof.
  intros space assignment Hspace.
  rewrite conditional_problem_builds in Hspace. injection Hspace as <-.
  split; [|split].
  - intros Hopt k Hk. apply flatten_key in Hk as [Hk _].
    rewrite active_conditional, Hopt in Hk. cbn in Hk.
    apply elem_of_cons in Hk as [->|Hk]; [by split; [left|]|].
    apply list_elem_of_singleton in Hk as ->. by split; [right|].
  - intros Hopt k Hk. apply flatten_key in Hk as [Hk _].
    rewrite active_conditional, Hopt in Hk. cbn in Hk.
    repeat (apply elem_of_cons in Hk as [->|Hk]; [split; [tauto|done]|]).
    by apply elem_of_nil in Hk.
  - intros any k Hk. by apply flatten_key in Hk as [Hk _].
Qed.

(** An assignment that carries a stale Adam value next to the SGD ones. *)
Definition sgd_assignment : gmap string ParameterValue :=
  {[ "optimizer" := VStr "sgd";
     "sgd_learning_rate" := VDouble 0.5;
     "adam_beta1" := VDouble 0.5 ]}.

Lemma flatten_conditional_problem_witness :
  flatten conditional_space sgd_assignment !! "adam_beta1" = None
  ∧ String.prefix "adam_" "sgd_learning_rate" = false.
Proof.
  split; [by vm_compute|].
  refine (proj2 (proj1 (flatten_conditional_problem conditional_space sgd_assignment
                          conditional_problem_builds) eq_refl "sgd_learning_rate" _)).
  exists (VDouble 0.5). by vm_compute.
Defined.

(** ** Infeasibility *)

(** The scenario's trial: x = 2, y = 2, not yet evaluated. *)
Definition trial_2_2 : Trial :=
  mkTrial 1 {[ "x" := VDouble 2; "y" := VDouble 2 ]} None None false.

(** Another trial, at the origin. *)
Definition trial_0_0 : Trial :=
  mkTrial 2 {[ "x" := VDouble 0; "y" := VDouble 0 ]} None None false.

(** When the global [suggestion] happens to be the trial that is passed,
    [evaluate] does mark every assignment outside the disk infeasible and
    records nothing else. *)
Lemma evaluate_aliased_infeasible (trial : Trial) (x y : float) :
  trial_parameters trial !! "x" = Some (VDouble x) →
  trial_parameters trial !! "y" = Some (VDouble y) →
  PrimFloat.leb (x * x + y * y)%float 1%float = false →
  ∃ trial', evaluate (Some trial) trial = Ok trial'
            ∧ status trial' = COMPLETED
            ∧ infeasibility_reason trial' = Some "Outside of range."
            ∧ final_measurement trial' = final_measurement trial.
Proof.
  intros Hx Hy Hout. unfold evaluate, getfloat. rewrite Hx, Hy. simpl. rewrite Hout.
  eexists. split; [done|]. unfold status. simpl.
  by destruct (final_measurement trial).
Qed.

(** C3, on the code: [evaluate] reads the global [suggestion], not its
    argument. With [suggestion] unbound, as in the notebook, evaluating the
    trial (x = 2, y = 2) raises [NameError]; with [suggestion] bound to a
    trial at the origin, the trial (2, 2) is completed with the measurement
    sum = 0 and without an infeasibility reason. *)
Theorem evaluate_ignores_trial_parameters :
  evaluate None trial_2_2 = Raise NameError
  ∧ ∃ trial', evaluate (Some trial_0_0) trial_2_2 = Ok trial'
              ∧ status trial' = COMPLETED
              ∧ infeasibility_reason trial' = None
              ∧ final_measurement trial' = Some (mkMeasurement {[ "sum" := 0%float ]}).
Proof.
  split; [reflexivity|].
  eexists. split; [by vm_compute|]. by vm_compute.
Qed.

(** ** Lehmer code *)

(** The value that a trial gives the parameter named [str n] (0 when it
    gives none, or not an integer). *)
Definition digit (trial : Trial) (n : nat) : Z :=
  match trial_parameters trial !! str n with
  | Some (VInt v) => v
  | _ => 0
  end.

(** The number that the digits [d 0], ..., [d (m - 1)] write in the
    factorial number system. *)
Fixpoint lehmer_sum (d : nat → Z) (m : nat) : Z :=
  match m with
  | O => 0
  | S m' => lehmer_sum d m' + d m' * factorial m'
  end.

Definition lehmer_digits (d : nat → Z) (m : nat) : Prop :=
  ∀ n, (n < m)%nat → 0 ≤ d n ≤ Z.of_nat n.

(** The permutation that the digits select: digit [m - 1] picks among all
    the [m] indices, the next one among those left, and so on. *)
Fixpoint decode (d : nat → Z) (m : nat) (all_indices : list Z) : list Z :=
  match m with
  | O => []
  | S m' =>
      match all_indices !! Z.to_nat (d m') with
      | Some value => value :: decode d m' (delete (Z.to_nat (d m')) all_indices)
      | None => []
      end
  end.

Lemma factorial_S (n : nat) : factorial (S n) = (Z.of_nat n + 1) * factorial n.
Proof. unfold factorial. simpl fact. lia. Qed.

Lemma factorial_pos (n : nat) : 0 < factorial n.
Proof. unfold factorial. pose proof (lt_O_fact n). lia. Qed.

Lemma lehmer_sum_bounds (d : nat → Z) (m : nat) :
  lehmer_digits d m → 0 ≤ lehmer_sum d m ≤ factorial m - 1.
Proof.
  induction m as [|m IH]; intros Hd; simpl.
  - unfold factorial. simpl. lia.
  - destruct IH as [IH1 IH2]; [intros n Hn; apply Hd; lia|].
    destruct (Hd m) as [Hd1 Hd2]; [lia|].
    pose proof (factorial_pos m). rewrite factorial_S. nia.
Qed.

Lemma lehmer_sum_ext (d d' : nat → Z) (m : nat) :
  (∀ n, (n < m)%nat → d n = d' n) → lehmer_sum d m = lehmer_sum d' m.
Proof.
  induction m as [|m IH]; intros He; simpl; [done|].
  rewrite IH, (He m) by (intros; try apply He; lia). done.
Qed.

Lemma compute_index_loop_app (trial : Trial) (l1 l2 : list nat) (index : Z) :
  compute_index_loop trial (l1 ++ l2) index
  = compute_index_loop trial l1 index ≫= compute_index_loop trial l2.
Proof.
  revert index. induction l1 as [|n l1 IH]; intros index; simpl; [done|].
  destruct (trial_parameters trial !! str n) as [[| |]|]; first [apply IH | done].
Qed.

Lemma compute_index_sum (trial : Trial) (m : nat) :
  (∀ n, (n < m)%nat → ∃ v, trial_parameters trial !! str n = Some (VInt v)) →
  compute_index_loop trial (seq 0 m) 0 = Ok (lehmer_sum (digit trial) m).
Proof.
  induction m as [|m IH]; intros Hv; [done|].
  rewrite seq_S, compute_index_loop_app, IH by (intros; apply Hv; lia).
  simpl. unfold digit. destruct (Hv m) as [v ->]; [lia|]. done.
Qed.

Lemma remove_lookup (l : list Z) (i : nat) (v : Z) :
  NoDup l → l !! i = Some v → Py.remove v l = Ok (delete i l).
Proof.
  revert i. induction l as [|x l IH]; intros i Hnd Hi; [done|].
  apply NoDup_cons in Hnd as [Hx Hnd]. destruct i as [|i]; simpl in *.
  - injection Hi as ->. by rewrite Z.eqb_refl.
  - destruct (Z.eqb_spec x v) as [->|_].
    + exfalso. apply Hx. by eapply list_elem_of_lookup_2.
    + by rewrite (IH i).
Qed.

Lemma decode_ext (d d' : nat → Z) (m : nat) (all_indices : list Z) :
  (∀ n, (n < m)%nat → d n = d' n) → decode d m all_indices = decode d' m all_indices.
Proof.
  revert all_indices. induction m as [|m IH]; intros all_indices He; simpl; [done|].
  rewrite (He m) by lia. destruct (_ !! _); [|done].
  f_equal. apply IH. intros. apply He. lia.
Qed.

Lemma decode_permutation (d : nat → Z) (m : nat) (all_indices : list Z) :
  lehmer_digits d m → length all_indices = m →
  decode d m all_indices ≡ₚ all_indices.
Proof.
  revert all_indices. induction m as [|m IH]; intros all_indices Hd Hlen; simpl.
  - by destruct all_indices.
  - destruct (Hd m) as [Hd1 Hd2]; [lia|].
    destruct (lookup_lt_is_Some_2 all_indices (Z.to_nat (d m))) as [v Hv]; [lia|].
    rewrite Hv. rewrite (delete_Permutation all_indices _ _ Hv) at 2.
    constructor. apply IH.
    + intros n Hn. apply Hd. lia.
    + rewrite length_delete by (by eexists). lia.
Qed.

Lemma decode_injective (d d' : nat → Z) (m : nat) (all_indices : list Z) :
  lehmer_digits d m → lehmer_digits d' m →
  length all_indices = m → NoDup all_indices →
  decode d m all_indices = decode d' m all_indices →
  ∀ n, (n < m)%nat → d n = d' n.
Proof.
  revert all_indices. induction m as [|m IH]; intros all_indices Hd Hd' Hlen Hnd He n Hn; [lia|].
  simpl in He.
  destruct (Hd m) as [Hd1 Hd2]; [lia|]. destruct (Hd' m) as [Hd1' Hd2']; [lia|].
  destruct (lookup_lt_is_Some_2 all_indices (Z.to_nat (d m))) as [v Hv]; [lia|].
  destruct (lookup_lt_is_Some_2 all_indices (Z.to_nat (d' m))) as [v' Hv']; [lia|].
  rewrite Hv, Hv' in He. injection He as -> He.
  assert (Z.to_nat (d m) = Z.to_nat (d' m)) as Hm by (by eapply NoDup_lookup).
  destruct (decide (n = m)) as [->|Hne]; [lia|].
  rewrite Hm in He.
  apply (IH (delete (Z.to_nat (d' m)) all_indices)); try done.
  - intros k Hk. apply Hd. lia.
  - intros k Hk. apply Hd'. lia.
  - rewrite length_delete by (by eexists). lia.
  - eapply sublist_NoDup; [done|apply sublist_delete].
  - lia.
Qed.

Lemma decode_surjective (m : nat) (all_indices permutation : list Z) :
  length all_indices = m → permutation ≡ₚ all_indices →
  ∃ d, lehmer_digits d m ∧ decode d m all_indices = permutation.
Proof.
  revert all_indices permutation.
  induction m as [|m IH]; intros all_indices permutation Hlen Hp.
  - destruct all_indices; [|done]. apply Permutation_nil_r in Hp as ->.
    exists (λ _, 0). split; [|done]. intros n Hn. lia.
  - destruct permutation as [|x permutation].
    { symmetry in Hp. apply Permutation_nil_r in Hp as ->. done. }
    assert (x ∈ all_indices) as Hx by (rewrite <- Hp; apply list_elem_of_here).
    apply list_elem_of_lookup_1 in Hx as [i Hi].
    pose proof (lookup_lt_Some _ _ _ Hi) as Hlt.
    destruct (IH (delete i all_indices) permutation) as (d & Hd & Hdec).
    { rewrite length_delete by (by eexists). lia. }
    { apply (Permutation_cons_inv (a := x)).
      by rewrite Hp, <- (delete_Permutation all_indices i x Hi). }
    exists (λ n, if decide (n = m) then Z.of_nat i else d n). split.
    + intros n Hn. case_decide; [subst; lia|]. apply Hd. lia.
    + simpl. rewrite decide_True by done. rewrite Nat2Z.id, Hi. f_equal.
      rewrite <- Hdec. apply decode_ext. intros n Hn. by rewrite decide_False by lia.
Qed.

Lemma range_NoDup (n : nat) : NoDup (range (Z.of_nat n)).
Proof.
  unfold range. rewrite Nat2Z.id.
  apply (NoDup_fmap_2 Z.of_nat), NoDup_seq.
Qed.

Lemma compute_permutation_loop_decode (N m : nat) (d : nat → Z)
    (all_indices output : list Z) :
  (m ≤ N)%nat → length all_indices = m → NoDup all_indices → lehmer_digits d m →
  compute_permutation_loop N (seq (N - m + 1) m) all_indices (lehmer_sum d m) output
  = Ok (output ++ decode d m all_indices).
Proof.
  revert all_indices output.
  induction m as [|m IH]; intros all_indices output Hm Hlen Hnd Hd.
  - simpl. by rewrite app_nil_r.
  - destruct (Hd m) as [Hd1 Hd2]; [lia|].
    destruct (lehmer_sum_bounds d m) as [Hs1 Hs2]; [intros n Hn; apply Hd; lia|].
    pose proof (factorial_pos m) as Hf.
    cbn [seq compute_permutation_loop lehmer_sum decode].
    replace (N - (N - S m + 1))%nat with m by lia.
    replace (S (N - S m + 1))%nat with (N - m + 1)%nat by lia.
    rewrite Z.div_add, Z.mod_add, Z.div_small, Z.mod_small by lia.
    rewrite Z.add_0_l.
    destruct (getitem_in_range all_indices (d m)) as (value & -> & Hv); [lia|].
    rewrite Hv. simpl. rewrite (remove_lookup all_indices _ value Hnd Hv). simpl.
    rewrite IH.
    + by rewrite <- app_assoc.
    + lia.
    + rewrite length_delete by (by eexists). lia.
    + eapply sublist_NoDup; [done|apply sublist_delete].
    + intros n Hn. apply Hd. lia.
Qed.

(** A trial that gives every parameter "n" below [N] an integer of
    [0, n]. *)
Definition lehmer_trial (N : nat) (trial : Trial) : Prop :=
  ∀ n, (n < N)%nat →
    ∃ v, trial_parameters trial !! str n = Some (VInt v) ∧ 0 ≤ v ≤ Z.of_nat n.

Lemma lehmer_trial_digits (N : nat) (trial : Trial) :
  lehmer_trial N trial → lehmer_digits (digit trial) N.
Proof.
  intros Ht n Hn. unfold digit. by destruct (Ht n Hn) as (v & -> & Hv).
Qed.

Lemma compute_index_lehmer (N : nat) (trial : Trial) :
  lehmer_trial N trial →
  compute_index N trial = Ok (lehmer_sum (digit trial) N).
Proof.
  intros Ht. apply compute_index_sum. intros n Hn.
  destruct (Ht n Hn) as (v & Hv & _). by exists v.
Qed.

Lemma phi_decode (N : nat) (trial : Trial) :
  lehmer_trial N trial →
  phi N trial = Ok (decode (digit trial) N (range (Z.of_nat N))).
Proof.
  intros Ht. unfold phi. rewrite compute_index_lehmer by done. simpl.
  unfold compute_permutation.
  pose proof (compute_permutation_loop_decode N N (digit trial)
                (range (Z.of_nat N)) []) as Hloop.
  replace (N - N + 1)%nat with 1%nat in Hloop by lia.
  apply Hloop; [done| |apply range_NoDup|by apply lehmer_trial_digits].
  rewrite range_length. lia.
Qed.

(** The trial whose parameters are the digits [d 0], ..., [d (N - 1)]. *)
Definition trial_of_digits (N : nat) (d : nat → Z) : Trial :=
  mkTrial 0 (list_to_map ((λ n, (str n, VInt (d n))) <$> seq 0 N)) None None false.

Lemma trial_of_digits_lookup (N : nat) (d : nat → Z) (k : string) (v : ParameterValue) :
  trial_parameters (trial_of_digits N d) !! k = Some v
  ↔ ∃ n, (n < N)%nat ∧ k = str n ∧ v = VInt (d n).
Proof.
  unfold trial_of_digits. simpl. rewrite <- elem_of_list_to_map.
  - rewrite list_elem_of_fmap. split.
    + intros (n & [= -> ->] & Hn). apply elem_of_seq in Hn. exists n. split; [lia|done].
    + intros (n & Hn & -> & ->). exists n. split; [done|]. apply elem_of_seq. lia.
  - rewrite <- list_fmap_compose. apply NoDup_fmap_2; [|apply NoDup_seq].
    intros a b Hab. simpl in Hab. by apply (inj pretty) in Hab.
Qed.

Lemma trial_of_digits_lehmer (N : nat) (d : nat → Z) :
  lehmer_digits d N → lehmer_trial N (trial_of_digits N d).
Proof.
  intros Hd n Hn. exists (d n). split; [|by apply Hd].
  apply trial_of_digits_lookup. by exists n.
Qed.

Lemma trial_of_digits_digit (N : nat) (d : nat → Z) (n : nat) :
  (n < N)%nat → digit (trial_of_digits N d) n = d n.
Proof.
  intros Hn. unfold digit.
  assert (trial_parameters (trial_of_digits N d) !! str n = Some (VInt (d n))) as ->; [|done].
  apply trial_of_digits_lookup. by exists n.
Qed.

Example factorial_10 : factorial 10 = 3628800.
Proof. vm_compute. reflexivity. Qed.

Example compute_permutation_first :
  compute_permutation N 0 = Ok [0; 1; 2; 3; 4; 5; 6; 7; 8; 9].
Proof. vm_compute. reflexivity. Qed.

Example compute_permutation_last :
  compute_permutation N 3628799 = Ok [9; 8; 7; 6; 5; 4; 3; 2; 1; 0].
Proof. vm_compute. reflexivity. Qed.

(** An index beyond [10! - 1] is not the index of a Lehmer code. *)
Example compute_permutation_beyond :
  compute_permutation N 3628800 = Raise IndexError.
Proof. vm_compute. reflexivity. Qed.

Example phi_digits :
  phi N (trial_of_digits N (λ n, if decide (n = 9%nat) then 3 else 0))
  = Ok [3; 0; 1; 2; 4; 5; 6; 7; 8; 9].
Proof. vm_compute. reflexivity. Qed.

(** The search space that the notebook's loop builds for [N = 10]. *)
Definition permutation_space : SearchSpace :=
  match permutation_problem N with
  | Ok space => space
  | Raise _ => ProblemStatement
  end.

Lemma permutation_problem_builds : permutation_problem N = Ok permutation_space.
Proof. by vm_compute. Qed.

Lemma permutation_space_parameters :
  parameters permutation_space
  = (λ n, mkParameterConfig (str n) (IntegerBounds 0 (Z.of_nat n)) None None [])
      <$> seq 0 N.
Proof. by vm_compute. Qed.

Lemma assignment_over_lehmer (trial : Trial) :
  assignment_over permutation_space (trial_parameters trial) → lehmer_trial N trial.
Proof.
  intros [Hin _] n Hn.
  destruct (Hin (mkParameterConfig (str n) (IntegerBounds 0 (Z.of_nat n)) None None []))
    as (v & Hv & Hdom).
  { rewrite permutation_space_parameters. apply list_elem_of_fmap.
    exists n. split; [done|]. apply elem_of_seq. lia. }
  simpl in Hv, Hdom. destruct v as [f|z|s]; try done.
  exists z. split; [done|]. simpl in Hdom. lia.
Qed.

Lemma assignment_over_key (trial : Trial) (k : string) :
  assignment_over permutation_space (trial_parameters trial) →
  is_Some (trial_parameters trial !! k) → ∃ n, (n < N)%nat ∧ k = str n.
Proof.
  intros [_ Hout] Hk. destruct (Hout k Hk) as (pc & Hpc & <-).
  rewrite permutation_space_parameters in Hpc.
  apply list_elem_of_fmap in Hpc as (n & -> & Hn). apply elem_of_seq in Hn.
  exists n. split; [lia|done].
Qed.

Lemma lehmer_trial_assignment_over (d : nat → Z) :
  lehmer_digits d N →
  assignment_over permutation_space (trial_parameters (trial_of_digits N d)).
Proof.
  intros Hd. split.
  - intros pc Hpc. rewrite permutation_space_parameters in Hpc.
    apply list_elem_of_fmap in Hpc as (n & -> & Hn). apply elem_of_seq in Hn.
    exists (VInt (d n)). split.
    + apply trial_of_digits_lookup. exists n. split; [lia|done].
    + simpl. destruct (Hd n) as [H1 H2]; [lia|]. lia.
  - intros k [v Hk]. apply trial_of_digits_lookup in Hk as (n & Hn & -> & _).
    exists (mkParameterConfig (str n) (IntegerBounds 0 (Z.of_nat n)) None None []).
    split; [|done].
    rewrite permutation_space_parameters. apply list_elem_of_fmap.
    exists n. split; [done|]. apply elem_of_seq. lia.
Qed.

Lemma phi_injective (t1 t2 : Trial) :
  assignment_over permutation_space (trial_parameters t1) →
  assignment_over permutation_space (trial_parameters t2) →
  phi N t1 = phi N t2 → trial_parameters t1 = trial_parameters t2.
Proof.
  intros H1 H2 Hphi.
  pose proof (assignment_over_lehmer t1 H1) as L1.
  pose proof (assignment_over_lehmer t2 H2) as L2.
  rewrite !phi_decode in Hphi by done. injection Hphi as Hdec.
  assert (∀ n, (n < N)%nat → trial_parameters t1 !! str n = trial_parameters t2 !! str n)
    as Hsame.
  { intros n Hn.
    pose proof (decode_injective (digit t1) (digit t2) N (range (Z.of_nat N))
                  (lehmer_trial_digits N t1 L1) (lehmer_trial_digits N t2 L2)
                  (range_length _) (range_NoDup N) Hdec n Hn) as Hd.
    unfold digit in Hd.
    destruct (L1 n Hn) as (v1 & E1 & _), (L2 n Hn) as (v2 & E2 & _).
    rewrite E1, E2 in *. by subst. }
  apply map_eq. intros k.
  destruct (trial_parameters t1 !! k) as [v|] eqn:E1.
  - destruct (assignment_over_key t1 k H1) as (n & Hn & ->); [by eexists|].
    by rewrite <- Hsame, E1.
  - destruct (trial_parameters t2 !! k) as [v|] eqn:E2; [|done].
    destruct (assignment_over_key t2 k H2) as (n & Hn & ->); [by eexists|].
    by rewrite <- E1, Hsame, E2.
Qed.

(** C10. Over the permutation search space (INTEGER parameters "0" to "9",
    parameter "n" in [0, n]), [compute_index] returns an integer of
    [0, 10! - 1] and [phi] returns a list of length 10 that is a
    permutation of 0, ..., 9 without repetition; [phi] is injective on the
    assignments and reaches every permutation of 0, ..., 9. *)
Theorem lehmer_reparameterization :
  ∀ (space : SearchSpace), permutation_problem N = Ok space →
    (∀ trial, assignment_over space (trial_parameters trial) →
       ∃ index permutation,
         compute_index N trial = Ok index
         ∧ 0 ≤ index ≤ factorial 10 - 1
         ∧ phi N trial = Ok permutation
         ∧ length permutation = 10%nat
         ∧ permutation ≡ₚ range 10
         ∧ NoDup permutation)
    ∧ (∀ t1 t2,
         assignment_over space (trial_parameters t1) →
         assignment_over space (trial_parameters t2) →
         phi N t1 = phi N t2 → trial_parameters t1 = trial_parameters t2)
    ∧ (∀ permutation, permutation ≡ₚ range 10 →
         ∃ trial, assignment_over space (trial_parameters trial)
                  ∧ phi N trial = Ok permutation).
Proof.
  intros space Hspace.
  rewrite permutation_problem_builds in Hspace. injection Hspace as <-.
  split; [|split].
  - intros trial Hover. pose proof (assignment_over_lehmer trial Hover) as Ht.
    pose proof (lehmer_trial_digits N trial Ht) as Hd.
    pose proof (decode_permutation (digit trial) N (range (Z.of_nat N)) Hd
                  (range_length _)) as Hperm.
    exists (lehmer_sum (digit trial) N), (decode (digit trial) N (range (Z.of_nat N))).
    split; [by apply compute_index_lehmer|].
    split; [by apply (lehmer_sum_bounds (digit trial) N)|].
    split; [by apply phi_decode|].
    split; [by rewrite Hperm, range_length|].
    split; [done|]. rewrite Hperm. apply range_NoDup.
  - apply phi_injective.
  - intros permutation Hperm.
    destruct (decode_surjective N (range (Z.of_nat N)) permutation (range_length _) Hperm)
      as (d & Hd & Hdec).
    exists (trial_of_digits N d).
    split; [by apply lehmer_trial_assignment_over|].
    rewrite phi_decode by (by apply trial_of_digits_lehmer).
    f_equal. rewrite <- Hdec. apply decode_ext. intros n Hn.
    by apply trial_of_digits_digit.
Qed.

Lemma lehmer_reparameterization_witness :
  ∃ trial, assignment_over permutation_space (trial_parameters trial)
           ∧ phi N trial = Ok [9; 8; 7; 6; 5; 4; 3; 2; 1; 0].
Proof.
  apply (proj2 (proj2 (lehmer_reparameterization permutation_space
                         permutation_problem_builds))).
  change (range 10) with (reverse [9; 8; 7; 6; 5; 4; 3; 2; 1; 0]).
  symmetry. apply reverse_Permutation.
Defined.

(** * Further properties of the guides' code *)

(** ** More Python runtime facts *)

Lemma max_from_ge (x : Z) (l : list Z) :
  x ≤ max_from x l ∧ ∀ y, y ∈ l → y ≤ max_from x l.
Proof.
  unfold max_from. revert x. induction l as [|a l IH]; intros x; simpl.
  - split; [lia|]. intros y Hy. by apply elem_of_nil in Hy.
  - destruct (IH (Z.max x a)) as [H1 H2]. split; [lia|].
    intros y Hy. apply elem_of_cons in Hy as [->|Hy]; [lia|by apply H2].
Qed.

Lemma max_from_elem (x : Z) (l : list Z) : max_from x l ∈ x :: l.
Proof.
  unfold max_from. revert x. induction l as [|a l IH]; intros x; simpl.
  - apply list_elem_of_here.
  - specialize (IH (Z.max x a)).
    apply elem_of_cons in IH as [IH|IH].
    + rewrite IH. destruct (Z.max_spec x a) as [[_ ->]|[_ ->]].
      * apply list_elem_of_further, list_elem_of_here.
      * apply list_elem_of_here.
    + by do 2 apply list_elem_of_further.
Qed.

(** [max] is the element that bounds all the others. *)
Lemma max_spec (l : list Z) (m : Z) :
  Py.max l = Ok m ↔ m ∈ l ∧ ∀ y, y ∈ l → y ≤ m.
Proof.
  destruct l as [|x l]; simpl.
  - split; [done|]. intros [Hm _]. by apply elem_of_nil in Hm.
  - pose proof (max_from_ge x l) as [H1 H2]. pose proof (max_from_elem x l) as H3.
    split.
    + intros [= <-]. split; [done|].
      intros y Hy. apply elem_of_cons in Hy as [->|Hy]; [done|by apply H2].
    + intros [Hm Hub]. f_equal.
      assert (max_from x l ≤ m) by (by apply Hub).
      assert (m ≤ max_from x l); [|lia].
      apply elem_of_cons in Hm as [->|Hm]; [done|by apply H2].
Qed.

Lemma max_same_elements (l l' : list Z) :
  (∀ y, y ∈ l ↔ y ∈ l') → Py.max l = Py.max l'.
Proof.
  intros Hsame. destruct (Py.max l) as [m|e] eqn:Hl.
  - symmetry. apply max_spec. apply max_spec in Hl as [Hm Hub].
    split; [by apply Hsame|]. intros y Hy. by apply Hub, Hsame.
  - destruct l as [|x l]; [|done]. injection Hl as <-.
    destruct l' as [|x' l']; [done|].
    exfalso. eapply elem_of_nil, Hsame, list_elem_of_here.
Qed.

Lemma range_lookup (n : Z) (i : nat) :
  (i < Z.to_nat n)%nat → range n !! i = Some (Z.of_nat i).
Proof.
  intros Hi. unfold range. rewrite list_lookup_fmap, lookup_seq_lt by done. done.
Qed.

Lemma range_take (n m : Z) :
  n ≤ m → range n = take (Z.to_nat n) (range m).
Proof.
  intros Hnm. unfold range. rewrite <- fmap_take, take_seq. do 2 f_equal. lia.
Qed.

Lemma range_nonpositive (n : Z) : n ≤ 0 → range n = [].
Proof. intros Hn. unfold range. by replace (Z.to_nat n) with 0%nat by lia. Qed.

Lemma comprehension_lookup {A B} (f : A → result B) (l : list A) (bs : list B)
    (i : nat) (a : A) :
  comprehension f l = Ok bs → l !! i = Some a →
  ∃ b, f a = Ok b ∧ bs !! i = Some b.
Proof.
  revert bs i. induction l as [|x l IH]; intros bs i; simpl; [done|].
  destruct (f x) as [b|e] eqn:Hx; [|done].
  destruct (comprehension f l) as [bs'|e]; [|done].
  intros [= <-]. destruct i as [|i]; simpl.
  - intros [= <-]. by exists b.
  - by apply IH.
Qed.

Lemma comprehension_take {A B} (f : A → result B) (l : list A) (bs : list B) (k : nat) :
  comprehension f l = Ok bs → comprehension f (take k l) = Ok (take k bs).
Proof.
  revert bs k. induction l as [|x l IH]; intros bs k; simpl.
  - intros [= <-]. by destruct k.
  - destruct (f x) as [b|e] eqn:Hx; [|done].
    destruct (comprehension f l) as [bs'|e]; [|done].
    intros [= <-]. destruct k as [|k]; simpl; [done|].
    by rewrite Hx, (IH bs' k).
Qed.

(** ** More on [make_parameters] *)

Lemma make_parameters_loop_ok_inv (pc : ParameterConfig) (rest : list ParameterConfig)
    (index : Z) (acc d : gmap string ParameterValue) :
  make_parameters_loop (pc :: rest) index acc = Ok d →
  type pc = CATEGORICAL ∧ feasible_values pc ≠ []
  ∧ ∃ v, cycled pc index = Some v
         ∧ make_parameters_loop rest index (<[name pc := v]> acc) = Ok d.
Proof.
  intros Hd.
  destruct (type pc) eqn:Hty; try (simpl in Hd; by rewrite Hty in Hd).
  destruct (decide (feasible_values pc = [])) as [Hfv|Hfv].
  { simpl in Hd. by rewrite Hty, Hfv in Hd. }
  split; [done|]. split; [done|].
  destruct (make_parameters_loop_step pc rest index acc Hty Hfv) as (v & Hv & Hstep).
  exists v. split; [done|]. by rewrite <- Hstep.
Qed.

Lemma make_parameters_loop_error (params : list ParameterConfig) (index : Z)
    (acc : gmap string ParameterValue) (e : exception) :
  make_parameters_loop params index acc = Raise e →
  (e = ValueError ∧ ∃ pc, pc ∈ params ∧ type pc ≠ CATEGORICAL)
  ∨ (e = ZeroDivisionError
     ∧ ∃ pc, pc ∈ params ∧ type pc = CATEGORICAL ∧ feasible_values pc = []).
Proof.
  revert acc. induction params as [|pc rest IH]; intros acc He; [done|].
  destruct (type pc) eqn:Hty;
    try (simpl in He; rewrite Hty in He; injection He as <-; left; split; [done|];
         exists pc; split; [apply list_elem_of_here|by rewrite Hty]).
  destruct (decide (feasible_values pc = [])) as [Hfv|Hfv].
  - simpl in He. rewrite Hty, Hfv in He. injection He as <-.
    right. split; [done|]. exists pc. split; [apply list_elem_of_here|done].
  - destruct (make_parameters_loop_step pc rest index acc Hty Hfv) as (v & _ & Hstep).
    rewrite Hstep in He. apply IH in He as [(-> & pc' & Hin & H')|(-> & pc' & Hin & H')].
    + left. split; [done|]. exists pc'. split; [by apply list_elem_of_further|done].
    + right. split; [done|]. exists pc'. split; [by apply list_elem_of_further|done].
Qed.

(** X1. [make_parameters] returns a dictionary exactly on the search spaces
    whose root parameters are all CATEGORICAL with at least one feasible
    value. Otherwise it raises [ValueError] (some parameter is of another
    type) or [ZeroDivisionError] (some CATEGORICAL parameter has no
    feasible value), and never anything else, whatever the index, negative
    ones included. *)
Theorem make_parameters_outcome :
  ∀ (study_config : StudyConfig) (index : Z),
    (returns (make_parameters study_config index) ↔ categorical_space study_config)
    ∧ (∀ e, make_parameters study_config index = Raise e →
         (e = ValueError
          ∧ ∃ pc, pc ∈ parameters (search_space study_config) ∧ type pc ≠ CATEGORICAL)
         ∨ (e = ZeroDivisionError
            ∧ ∃ pc, pc ∈ parameters (search_space study_config)
                    ∧ type pc = CATEGORICAL ∧ feasible_values pc = [])).
Proof.
  intros study_config index. split; [split|].
  - intros [d Hd]. unfold make_parameters, categorical_space in *.
    revert Hd. generalize (∅ : gmap string ParameterValue).
    induction (parameters (search_space study_config)) as [|pc rest IH]; intros acc Hd.
    + intros pc Hpc. by apply elem_of_nil in Hpc.
    + apply make_parameters_loop_ok_inv in Hd as (Hty & Hne & v & _ & Hd).
      intros pc' Hpc'. apply elem_of_cons in Hpc' as [->|Hpc']; [done|].
      by apply (IH _ Hd).
  - apply make_parameters_returns.
  - apply make_parameters_loop_error.
Qed.

Lemma make_parameters_loop_periodic (params : list ParameterConfig) (index period : Z)
    (acc : gmap string ParameterValue) :
  (∀ pc, pc ∈ params → type pc = CATEGORICAL →
     (Z.of_nat (length (feasible_values pc)) | period)) →
  make_parameters_loop params (index + period) acc
  = make_parameters_loop params index acc.
Proof.
  revert acc. induction params as [|pc rest IH]; intros acc Hdiv; simpl; [done|].
  destruct (type pc) eqn:Hty; try done.
  destruct (Z.eqb_spec (Z.of_nat (length (feasible_values pc))) 0) as [|Hsize]; [done|].
  destruct (Hdiv pc) as [q ->]; [apply list_elem_of_here|done|].
  rewrite Z.mod_add by done.
  destruct (getitem _ _) as [v|e]; simpl; [|done].
  apply IH. intros pc' Hpc'. apply Hdiv. by apply list_elem_of_further.
Qed.

(** X2. [make_parameters] cycles: adding to the index a common multiple of
    the numbers of feasible values of the CATEGORICAL parameters changes
    neither the dictionary returned nor the exception raised. *)
Theorem make_parameters_periodic :
  ∀ (study_config : StudyConfig) (index period : Z),
    (∀ pc, pc ∈ parameters (search_space study_config) → type pc = CATEGORICAL →
       (Z.of_nat (length (feasible_values pc)) | period)) →
    make_parameters study_config (index + period) = make_parameters study_config index.
Proof.
  intros study_config index period Hdiv. by apply make_parameters_loop_periodic.
Qed.

Lemma make_parameters_periodic_witness :
  make_parameters abc_config (4 + (-6)) = make_parameters abc_config 4.
Proof.
  apply (make_parameters_periodic abc_config 4 (-6)).
  intros pc Hpc _. apply list_elem_of_singleton in Hpc as ->.
  exists (-2). reflexivity.
Defined.

Lemma make_parameters_loop_keys (params : list ParameterConfig) (index : Z)
    (acc d : gmap string ParameterValue) :
  make_parameters_loop params index acc = Ok d →
  ∀ k v, d !! k = Some v →
    (∃ pc, pc ∈ params ∧ name pc = k ∧ v ∈ feasible_values pc)
    ∨ ((k ∉ name <$> params) ∧ acc !! k = Some v).
Proof.
  revert acc. induction params as [|pc rest IH]; intros acc Hd k v Hk.
  - injection Hd as <-. right. split; [|done]. apply not_elem_of_nil.
  - apply make_parameters_loop_ok_inv in Hd as (Hty & Hne & v' & Hv' & Hd).
    destruct (IH _ Hd k v Hk) as [(pc' & Hin & Hname & Hfeas)|[Hout Hacc]].
    + left. exists pc'. split; [by apply list_elem_of_further|done].
    + destruct (decide (name pc = k)) as [<-|Hne'].
      * rewrite lookup_insert_eq in Hacc. injection Hacc as <-.
        left. exists pc. split; [apply list_elem_of_here|]. split; [done|].
        by eapply list_elem_of_lookup_2.
      * rewrite lookup_insert_ne in Hacc by done.
        right. split; [|done]. simpl. by apply not_elem_of_cons.
Qed.

Lemma make_parameters_loop_dom (params : list ParameterConfig) (index : Z)
    (acc d : gmap string ParameterValue) :
  make_parameters_loop params index acc = Ok d →
  ∀ pc, pc ∈ params → is_Some (d !! name pc).
Proof.
  revert acc. induction params as [|pc rest IH]; intros acc Hd pc' Hpc'.
  - by apply elem_of_nil in Hpc'.
  - apply make_parameters_loop_ok_inv in Hd as (Hty & Hne & v & Hv & Hd).
    apply elem_of_cons in Hpc' as [->|Hpc']; [|by eapply IH].
    destruct (decide (name pc ∈ name <$> rest)) as [Hin|Hout].
    + apply list_elem_of_fmap in Hin as (pc' & Hname & Hin).
      rewrite Hname. by eapply IH.
    + assert (∀ ps a d', make_parameters_loop ps index a = Ok d' →
                name pc ∉ name <$> ps → d' !! name pc = a !! name pc) as Hframe.
      { clear. induction ps as [|p ps IH]; intros a d' Hd' Hout.
        - by injection Hd' as <-.
        - apply make_parameters_loop_ok_inv in Hd' as (_ & _ & v & _ & Hd').
          simpl in Hout. apply not_elem_of_cons in Hout as [Hne Hout].
          rewrite (IH _ _ Hd' Hout). by apply lookup_insert_ne. }
      rewrite (Hframe _ _ _ Hd Hout), lookup_insert_eq. by eexists.
Qed.

(** X3. The dictionary that [make_parameters] returns has exactly the names
    of the root parameters as keys, and every value is one of the feasible
    values of a root parameter of that name: conditional children are never
    given a value, and nothing infeasible is proposed. *)
Theorem make_parameters_keys_feasible :
  ∀ (study_config : StudyConfig) (index : Z) (d : gmap string ParameterValue),
    make_parameters study_config index = Ok d →
    (∀ k, is_Some (d !! k) ↔ k ∈ name <$> parameters (search_space study_config))
    ∧ (∀ k v, d !! k = Some v →
         ∃ pc, pc ∈ parameters (search_space study_config)
               ∧ name pc = k ∧ v ∈ feasible_values pc).
Proof.
  intros study_config index d Hd. unfold make_parameters in Hd.
  assert (∀ k v, d !! k = Some v →
            ∃ pc, pc ∈ parameters (search_space study_config)
                  ∧ name pc = k ∧ v ∈ feasible_values pc) as Hfeas.
  { intros k v Hk.
    destruct (make_parameters_loop_keys _ _ _ _ Hd k v Hk) as [H|[_ H]]; [done|].
    by rewrite lookup_empty in H. }
  split; [|done]. intros k. split.
  - intros [v Hk]. destruct (Hfeas k v Hk) as (pc & Hin & <- & _).
    apply list_elem_of_fmap. by exists pc.
  - intros Hin. apply list_elem_of_fmap in Hin as (pc & -> & Hin).
    by eapply make_parameters_loop_dom.
Qed.

(** The notebook's conditional search space under the toy algorithm. *)
Definition conditional_config : StudyConfig := mkStudyConfig conditional_space ∅.

Lemma make_parameters_keys_feasible_witness :
  make_parameters conditional_config 1 = Ok {[ "optimizer" := VStr "adam" ]}
  ∧ ¬ is_Some (({[ "optimizer" := VStr "adam" ]} : gmap string ParameterValue)
               !! "adam_beta1").
Proof.
  assert (make_parameters conditional_config 1 = Ok {[ "optimizer" := VStr "adam" ]})
    as Hd by (vm_compute; reflexivity).
  split; [exact Hd|].
  intros Hk.
  apply (proj1 (make_parameters_keys_feasible conditional_config 1 _ Hd)) in Hk.
  vm_compute in Hk. apply list_elem_of_singleton in Hk. discriminate Hk.
Defined.

(** ** More on [get_next_index] and [MyPolicy] *)

(** X4. [get_next_index] makes one fetch and leaves the datastore as it is.
    It returns 0 when the fetch finds no completed trial; otherwise the
    identifier of one of the completed trials, not smaller than that of
    any trial the fetch holds as completed. Trials that are active or
    stopped do not count. *)
Theorem get_next_index_largest_completed :
  ∀ (policy_supporter : PolicySupporter),
    (get_next_index policy_supporter).2 = served policy_supporter
    ∧ (fetched policy_supporter 0 = [] → (get_next_index policy_supporter).1 = 0)
    ∧ (fetched policy_supporter 0 ≠ [] →
         (∃ t, t ∈ trials_at policy_supporter (fetches policy_supporter)
               ∧ status t = COMPLETED
               ∧ id t = (get_next_index policy_supporter).1)
         ∧ (∀ t, t ∈ trials_at policy_supporter (fetches policy_supporter) →
              status t = COMPLETED →
              id t ≤ (get_next_index policy_supporter).1)).
Proof.
  intros ps. rewrite get_next_index_fetched. simpl.
  assert (∀ t, t ∈ fetched ps 0
               ↔ t ∈ trials_at ps (fetches ps) ∧ status t = COMPLETED) as Hfetched.
  { intros t. unfold fetched. rewrite Nat.add_0_r, list_elem_of_filter. tauto. }
  split; [done|]. split.
  - intros Hnone. unfold index_of_history. by rewrite Hnone.
  - intros Hsome.
    assert (Py.max (id <$> fetched ps 0) = Ok (index_of_history (fetched ps 0))) as Hmax.
    { unfold index_of_history. by destruct (fetched ps 0). }
    apply max_spec in Hmax as [Hin Hub]. split.
    + apply list_elem_of_fmap in Hin as (t & Hid & Ht).
      apply Hfetched in Ht as [Ht Hst]. by exists t.
    + intros t Ht Hst. apply Hub, list_elem_of_fmap. exists t.
      split; [done|]. by apply Hfetched.
Qed.

Lemma suggest_loop_rounds (n : nat) (request : SuggestRequest) (ps : PolicySupporter)
    (acc l : list TrialSuggestion) :
  (MyPolicy.suggest_loop n request ps acc).1 = Ok l →
  ∃ l', l = acc ++ l' ∧ length l' = n
        ∧ ∀ i, (i < n)%nat →
            ∃ p, make_parameters (study_config request)
                   (index_of_history (fetched ps i)) = Ok p
                 ∧ l' !! i = Some (mkTrialSuggestion p).
Proof.
  revert ps acc. induction n as [|n IH]; intros ps acc; simpl.
  - intros [= <-]. exists []. rewrite app_nil_r. split; [done|]. split; [done|]. lia.
  - rewrite get_next_index_fetched.
    destruct (make_parameters _ _) as [p|e] eqn:Hp; [|done].
    intros Hl. apply IH in Hl as (l' & -> & Hlen & Hrounds).
    exists (mkTrialSuggestion p :: l'). rewrite <- app_assoc. split; [done|].
    split; [simpl; lia|]. intros [|i] Hi.
    + by exists p.
    + destruct (Hrounds i) as (q & Hq & Hi'); [lia|].
      rewrite fetched_served in Hq. by exists q.
Qed.

(** X5. When [MyPolicy.suggest] returns, it returns [count] suggestions and
    the i-th one is [make_parameters] at the largest completed identifier
    that the i-th fetch of the call finds (0 if it finds none): each
    suggestion is computed from a fetch of its own, and from nothing
    else. *)
Theorem policy_suggest_rounds :
  ∀ (policy_supporter : PolicySupporter) (request : SuggestRequest)
    (decision : SuggestDecision),
    (MyPolicy.suggest (MyPolicy.__init__ policy_supporter) request).1 = Ok decision →
    length (suggestions decision) = Z.to_nat (count request)
    ∧ decision_metadata decision = MetadataDelta
    ∧ ∀ i, (i < Z.to_nat (count request))%nat →
        ∃ p, make_parameters (study_config request)
               (index_of_history (fetched policy_supporter i)) = Ok p
             ∧ suggestions decision !! i = Some (mkTrialSuggestion p).
Proof.
  intros ps request decision. rewrite policy_suggest_outcome. simpl.
  destruct (MyPolicy.suggest_loop _ _ _ _).1 as [l|e] eqn:Hl; [|done].
  simpl. intros [= <-]. simpl.
  apply suggest_loop_rounds in Hl as (l' & -> & Hlen & Hrounds). by simpl.
Qed.

(** A datastore in which a trial completes between two fetches. *)
Definition supporter_growing : PolicySupporter :=
  mkPolicySupporter
    (λ k, match k with
          | O => [completed_trial 1 (VStr "a")]
          | S _ => [completed_trial 1 (VStr "a"); completed_trial 2 (VStr "b")]
          end) 0.

Lemma policy_suggest_rounds_witness :
  (MyPolicy.suggest (MyPolicy.__init__ supporter_growing)
     (mkSuggestRequest 2 abc_config)).1
  = Ok (mkSuggestDecision
          [mkTrialSuggestion {[ "categorical" := VStr "b" ]};
           mkTrialSuggestion {[ "categorical" := VStr "c" ]}]
          MetadataDelta)
  ∧ ∃ p, make_parameters abc_config 2 = Ok p
         ∧ [mkTrialSuggestion {[ "categorical" := VStr "b" ]};
            mkTrialSuggestion {[ "categorical" := VStr "c" ]}] !! 1%nat
           = Some (mkTrialSuggestion p).
Proof.
  assert ((MyPolicy.suggest (MyPolicy.__init__ supporter_growing)
             (mkSuggestRequest 2 abc_config)).1
          = Ok (mkSuggestDecision
                  [mkTrialSuggestion {[ "categorical" := VStr "b" ]};
                   mkTrialSuggestion {[ "categorical" := VStr "c" ]}]
                  MetadataDelta)) as Hd by (vm_compute; reflexivity).
  split; [exact Hd|].
  apply (proj2 (proj2 (policy_suggest_rounds supporter_growing
                         (mkSuggestRequest 2 abc_config) _ Hd)) 1%nat).
  simpl. lia.
Defined.

Lemma suggest_loop_fetches (n : nat) (request : SuggestRequest) (ps : PolicySupporter)
    (acc : list TrialSuggestion) :
  trials_at (MyPolicy.suggest_loop n request ps acc).2 = trials_at ps
  ∧ (fetches ps ≤ fetches (MyPolicy.suggest_loop n request ps acc).2 ≤ fetches ps + n)%nat
  ∧ (returns (MyPolicy.suggest_loop n request ps acc).1 →
       fetches (MyPolicy.suggest_loop n request ps acc).2 = (fetches ps + n)%nat).
Proof.
  revert ps acc. induction n as [|n IH]; intros ps acc; simpl.
  - split; [done|]. split; [lia|]. intros _. lia.
  - rewrite get_next_index_fetched.
    destruct (make_parameters _ _) as [p|e]; simpl.
    + destruct (IH (served ps) (acc ++ [mkTrialSuggestion p])) as (H1 & H2 & H3).
      simpl in *. split; [done|]. split; [lia|]. intros Hr. rewrite H3 by done. lia.
    + split; [done|]. split; [lia|]. by intros [l Hl].
Qed.

(** X6. [MyPolicy.suggest] only reads the datastore: what later fetches
    observe is unchanged. It makes at most [count] fetches, exactly
    [count] when it returns, and none at all when [count <= 0], in which
    case it returns no suggestion even on a search space that
    [make_parameters] does not support. *)
Theorem policy_suggest_fetches :
  ∀ (self : MyPolicy.t) (request : SuggestRequest),
    let before := MyPolicy._policy_supporter self in
    let after := MyPolicy._policy_supporter (MyPolicy.suggest self request).2 in
    trials_at after = trials_at before
    ∧ (fetches before ≤ fetches after ≤ fetches before + Z.to_nat (count request))%nat
    ∧ (returns (MyPolicy.suggest self request).1 →
         fetches after = (fetches before + Z.to_nat (count request))%nat)
    ∧ (count request ≤ 0 →
         MyPolicy.suggest self request = (Ok (mkSuggestDecision [] MetadataDelta), self)).
Proof.
  intros [ps] request. simpl.
  pose proof (suggest_loop_fetches (Z.to_nat (count request)) request ps []) as (H1 & H2 & H3).
  pose proof (policy_suggest_outcome (MyPolicy.__init__ ps) request) as Hout.
  unfold MyPolicy.suggest in *. simpl in *.
  destruct (MyPolicy.suggest_loop _ _ _ _) as [r ps'] eqn:Hloop. simpl in *.
  split; [done|]. split; [done|]. split.
  - intros [d Hd]. apply H3. destruct r as [l|e]; [by eexists|done].
  - intros Hc. replace (Z.to_nat (count request)) with 0%nat in Hloop by lia.
    simpl in Hloop. by injection Hloop as <- <-.
Qed.

(** ** [MyPolicy] against [MyDesigner] *)

Lemma designer_suggest_unfold (study_config : StudyConfig) (history : list Trial)
    (count : Z) :
  history ≠ [] →
  MyDesigner.suggest
    (MyDesigner.update (MyDesigner.__init__ study_config) (mkCompletedTrials history))
    (Some count)
  = comprehension (λ i, make_parameters study_config (index_of_history history + i))
      (range count).
Proof.
  intros Hne. unfold MyDesigner.suggest, MyDesigner.update, index_of_history. simpl.
  by destruct history.
Qed.

(** X7. On a non-empty completed history and for [count >= 1], whenever the
    designer that replays the history returns from [suggest(count)], the
    policy that fetches this history at every round returns too, and it
    proposes [count] times the designer's first suggestion: the two agree
    for [count = 1], and from the second suggestion on the designer moves
    to the next index while the policy stays. *)
Theorem policy_repeats_designer_first :
  ∀ (policy_supporter : PolicySupporter) (request : SuggestRequest)
    (history : list Trial) (l : list (gmap string ParameterValue)),
    1 ≤ count request →
    history ≠ [] →
    (∀ k, (k < Z.to_nat (count request))%nat → fetched policy_supporter k = history) →
    MyDesigner.suggest
      (MyDesigner.update (MyDesigner.__init__ (study_config request))
         (mkCompletedTrials history))
      (Some (count request)) = Ok l →
    ∃ p, head l = Some p
         ∧ (MyPolicy.suggest (MyPolicy.__init__ policy_supporter) request).1
           = Ok (mkSuggestDecision
                   (replicate (Z.to_nat (count request)) (mkTrialSuggestion p))
                   MetadataDelta).
Proof.
  intros ps request history l Hcount Hne Hstable Hl.
  rewrite designer_suggest_unfold in Hl by done.
  destruct (comprehension_lookup _ _ _ 0%nat 0 Hl) as (p & Hp & Hhead).
  { apply (range_lookup (count request) 0). lia. }
  rewrite Z.add_0_r in Hp.
  exists p. split; [by rewrite head_lookup|].
  rewrite policy_suggest_outcome. simpl.
  rewrite (suggest_loop_stable _ request ps history [] Hstable).
  destruct (Z.to_nat (count request)) as [|n] eqn:Hn; [lia|].
  by rewrite Hp.
Qed.

Lemma policy_repeats_designer_first_witness :
  ∃ p, head [ ({[ "categorical" := VStr "c" ]} : gmap string ParameterValue);
              {[ "categorical" := VStr "a" ]} ] = Some p
       ∧ (MyPolicy.suggest (MyPolicy.__init__ supporter_a) (mkSuggestRequest 2 abc_config)).1
         = Ok (mkSuggestDecision (replicate 2 (mkTrialSuggestion p)) MetadataDelta).
Proof.
  apply (policy_repeats_designer_first supporter_a (mkSuggestRequest 2 abc_config)
           [completed_trial 1 (VStr "a"); completed_trial 2 (VStr "b")]).
  - simpl. lia.
  - done.
  - intros k _. reflexivity.
  - vm_compute. reflexivity.
Defined.

(** X8. With no completed trial the two part ways: on a supported search
    space with distinct names the policy starts at index 0 and proposes,
    [count] times, the dictionary that gives each parameter its first
    feasible value, while the designer constructed from the same study
    configuration raises [ValueError] for every count that is given. *)
Theorem policy_starts_where_designer_raises :
  ∀ (policy_supporter : PolicySupporter) (request : SuggestRequest),
    categorical_space (study_config request) →
    NoDup (name <$> parameters (search_space (study_config request))) →
    (∀ k, (k < Z.to_nat (count request))%nat → fetched policy_supporter k = []) →
    (∃ p, (∀ pc, pc ∈ parameters (search_space (study_config request)) →
             is_Some (p !! name pc) ∧ p !! name pc = head (feasible_values pc))
          ∧ (MyPolicy.suggest (MyPolicy.__init__ policy_supporter) request).1
            = Ok (mkSuggestDecision
                    (replicate (Z.to_nat (count request)) (mkTrialSuggestion p))
                    MetadataDelta))
    ∧ MyDesigner.suggest (MyDesigner.__init__ (study_config request))
        (Some (count request)) = Raise ValueError.
Proof.
  intros ps request Hcat Hnd Hempty. split; [|done].
  destruct (make_parameters_loop_spec _ 0 ∅ Hcat Hnd) as (p & Hp & Hin & _).
  exists p. split.
  - intros pc Hpc. destruct (Hin pc Hpc) as [Hsome Hv].
    rewrite Hv in *. unfold cycled in *.
    rewrite Z.mod_0_l in * by (destruct (Hcat pc Hpc) as [_ Hne];
                               destruct (feasible_values pc); [done|simpl; lia]).
    by rewrite head_lookup.
  - rewrite policy_suggest_outcome. simpl.
    rewrite (suggest_loop_stable _ request ps [] [] Hempty).
    change (index_of_history []) with 0. unfold make_parameters. rewrite Hp.
    by destruct (Z.to_nat (count request)).
Qed.

(** A datastore whose only trial is still active. *)
Definition supporter_fresh : PolicySupporter :=
  mkPolicySupporter (λ _, [mkTrial 1 {[ "categorical" := VStr "b" ]} None None false]) 0.

Lemma policy_starts_where_designer_raises_witness :
  (∃ p, (∀ pc, pc ∈ parameters (search_space abc_config) →
           is_Some (p !! name pc) ∧ p !! name pc = head (feasible_values pc))
        ∧ (MyPolicy.suggest (MyPolicy.__init__ supporter_fresh)
             (mkSuggestRequest 3 abc_config)).1
          = Ok (mkSuggestDecision (replicate 3 (mkTrialSuggestion p)) MetadataDelta))
  ∧ MyDesigner.suggest (MyDesigner.__init__ abc_config) (Some 3) = Raise ValueError.
Proof.
  apply (policy_starts_where_designer_raises supporter_fresh (mkSuggestRequest 3 abc_config)).
  - intros pc Hpc. apply list_elem_of_singleton in Hpc as ->. by split.
  - simpl. apply NoDup_singleton.
  - intros k _. reflexivity.
Defined.

(** ** More on [MyDesigner] *)

Lemma designer_updates_state (self : MyDesigner.t) (deltas : list CompletedTrials) :
  MyDesigner._study_config (foldl MyDesigner.update self deltas)
  = MyDesigner._study_config self
  ∧ MyDesigner._completed_trials (foldl MyDesigner.update self deltas)
    = MyDesigner._completed_trials self ++ concat (completed <$> deltas).
Proof.
  revert self. induction deltas as [|delta deltas IH]; intros self; simpl.
  - by rewrite app_nil_r.
  - destruct (IH (MyDesigner.update self delta)) as [-> ->]. simpl.
    by rewrite app_assoc.
Qed.

(** X9. A sequence of [update] calls only accumulates: the study
    configuration stays the one of construction and the completed trials
    are those held before followed by all batches in order, so cutting the
    same trials into other batches gives the same designer. *)
Theorem designer_updates_accumulate :
  ∀ (self : MyDesigner.t) (deltas deltas' : list CompletedTrials),
    MyDesigner._study_config (foldl MyDesigner.update self deltas)
    = MyDesigner._study_config self
    ∧ MyDesigner._completed_trials (foldl MyDesigner.update self deltas)
      = MyDesigner._completed_trials self ++ concat (completed <$> deltas)
    ∧ (concat (completed <$> deltas) = concat (completed <$> deltas') →
         foldl MyDesigner.update self deltas = foldl MyDesigner.update self deltas').
Proof.
  intros self deltas deltas'.
  destruct (designer_updates_state self deltas) as [Hc Ht].
  destruct (designer_updates_state self deltas') as [Hc' Ht'].
  split; [done|]. split; [done|]. intros Hsame.
  destruct (foldl MyDesigner.update self deltas) as [c t],
           (foldl MyDesigner.update self deltas') as [c' t'].
  simpl in *. by rewrite Hc, Hc', Ht, Ht', Hsame.
Qed.

(** X10. [MyDesigner.suggest] depends on the completed trials only through
    the set of their identifiers: two designers of one study configuration
    that have observed trials with the same identifiers, in any order and
    with any repetition, answer every [suggest] alike. *)
Theorem designer_suggest_order_free :
  ∀ (self self' : MyDesigner.t) (count : option Z),
    MyDesigner._study_config self = MyDesigner._study_config self' →
    (∀ i, i ∈ id <$> MyDesigner._completed_trials self
          ↔ i ∈ id <$> MyDesigner._completed_trials self') →
    MyDesigner.suggest self count = MyDesigner.suggest self' count.
Proof.
  intros self self' [count|] Hcfg Hids; [|done].
  unfold MyDesigner.suggest. by rewrite (max_same_elements _ _ Hids), Hcfg.
Qed.

Lemma designer_suggest_order_free_witness :
  MyDesigner.suggest
    (foldl MyDesigner.update (MyDesigner.__init__ abc_config)
       [mkCompletedTrials [completed_trial 1 (VStr "a")];
        mkCompletedTrials [completed_trial 2 (VStr "b")]])
    (Some 2)
  = MyDesigner.suggest
      (foldl MyDesigner.update (MyDesigner.__init__ abc_config)
         [mkCompletedTrials [completed_trial 2 (VStr "b"); completed_trial 1 (VStr "a")];
          mkCompletedTrials [completed_trial 2 (VStr "b")]])
      (Some 2).
Proof.
  apply designer_suggest_order_free; [reflexivity|].
  intros i. simpl. rewrite !elem_of_cons, !elem_of_nil. tauto.
Defined.

(** X11. The suggestions for a smaller count are the first ones of those
    for a larger count: if [suggest(m)] returns [l] and [0 <= n <= m], then
    [suggest(n)] returns the first [n] elements of [l]. *)
Theorem designer_suggest_prefix :
  ∀ (self : MyDesigner.t) (n m : Z) (l : list (gmap string ParameterValue)),
    0 ≤ n ≤ m →
    MyDesigner.suggest self (Some m) = Ok l →
    MyDesigner.suggest self (Some n) = Ok (take (Z.to_nat n) l).
Proof.
  intros self n m l Hnm. unfold MyDesigner.suggest.
  destruct (Py.max _) as [current_index|e]; simpl; [|done].
  intros Hl. rewrite (range_take n m) by lia. by apply comprehension_take.
Qed.

Lemma designer_suggest_prefix_witness :
  MyDesigner.suggest
    (MyDesigner.update (MyDesigner.__init__ abc_config)
       (mkCompletedTrials [completed_trial 7 (VStr "a")]))
    (Some 1)
  = Ok (take (Z.to_nat 1)
          [ ({[ "categorical" := VStr "b" ]} : gmap string ParameterValue);
            {[ "categorical" := VStr "c" ]};
            {[ "categorical" := VStr "a" ]} ]).
Proof.
  apply (designer_suggest_prefix _ 1 3); [lia|].
  vm_compute. reflexivity.
Defined.

(** X12. The designer walks through every category and cycles back: on a
    supported search space with distinct names, once it has observed a
    completed trial, [suggest(count)] with [count] at least the number of
    feasible values of a parameter proposes each feasible value of that
    parameter in some suggestion. *)
Theorem designer_suggest_covers_categories :
  ∀ (self : MyDesigner.t) (count : Z) (pc : ParameterConfig) (v : ParameterValue),
    categorical_space (MyDesigner._study_config self) →
    NoDup (name <$> parameters (search_space (MyDesigner._study_config self))) →
    MyDesigner._completed_trials self ≠ [] →
    pc ∈ parameters (search_space (MyDesigner._study_config self)) →
    Z.of_nat (length (feasible_values pc)) ≤ count →
    v ∈ feasible_values pc →
    ∃ l i p, MyDesigner.suggest self (Some count) = Ok l
             ∧ l !! i = Some p ∧ p !! name pc = Some v.
Proof.
  intros self count pc v Hcat Hnd Hne Hpc Hcount Hv.
  destruct (designer_suggest_returns self count Hcat Hne) as [l Hl].
  exists l. pose proof Hl as Hsuggest. unfold MyDesigner.suggest in Hl.
  destruct (Py.max _) as [m|e] eqn:Hm; simpl in Hl; [|done].
  apply list_elem_of_lookup_1 in Hv as [j Hj].
  pose proof (lookup_lt_Some _ _ _ Hj) as Hjlt.
  set (size := Z.of_nat (length (feasible_values pc))) in *.
  assert (0 < size) as Hsize by lia.
  pose proof (Z.mod_pos_bound (Z.of_nat j - m) size Hsize) as Hi.
  destruct (comprehension_lookup _ _ _ (Z.to_nat ((Z.of_nat j - m) mod size))
              (Z.of_nat (Z.to_nat ((Z.of_nat j - m) mod size))) Hl) as (p & Hp & Hlp).
  { apply range_lookup. lia. }
  exists (Z.to_nat ((Z.of_nat j - m) mod size)), p. split; [done|]. split; [done|].
  rewrite Z2Nat.id in Hp by lia.
  destruct (make_parameters_loop_spec _ (m + (Z.of_nat j - m) mod size) ∅ Hcat Hnd)
    as (d & Hd & Hin & _).
  unfold make_parameters in Hp. rewrite Hd in Hp. injection Hp as ->.
  destruct (Hin pc Hpc) as [_ ->]. unfold cycled. fold size.
  rewrite Z.add_mod_idemp_r by lia.
  replace (m + (Z.of_nat j - m)) with (Z.of_nat j) by lia.
  rewrite Z.mod_small by lia. by rewrite Nat2Z.id.
Qed.

Lemma designer_suggest_covers_categories_witness :
  ∃ l i p,
    MyDesigner.suggest
      (MyDesigner.update (MyDesigner.__init__ abc_config)
         (mkCompletedTrials [completed_trial 7 (VStr "a")]))
      (Some 3) = Ok l
    ∧ l !! i = Some p ∧ p !! "categorical" = Some (VStr "a").
Proof.
  apply (designer_suggest_covers_categories
           (MyDesigner.update (MyDesigner.__init__ abc_config)
              (mkCompletedTrials [completed_trial 7 (VStr "a")]))
           3
           (mkParameterConfig "categorical" (CategoricalValues ["a"; "b"; "c"]) None None [])
           (VStr "a")).
  - intros pc Hpc. apply list_elem_of_singleton in Hpc as ->. by split.
  - simpl. apply NoDup_singleton.
  - done.
  - apply list_elem_of_here.
  - simpl. lia.
  - apply list_elem_of_here.
Defined.

(** X13. A count that is zero or negative asks for nothing: a designer
    that holds a completed trial returns the empty sequence, even on a
    search space that [make_parameters] does not support. A designer that
    holds none raises [ValueError] all the same, for every integer count:
    the maximum is taken before the count is looked at. *)
Theorem designer_suggest_nonpositive_count :
  ∀ (self : MyDesigner.t) (count : Z),
    (MyDesigner._completed_trials self ≠ [] → count ≤ 0 →
       MyDesigner.suggest self (Some count) = Ok [])
    ∧ (MyDesigner._completed_trials self = [] →
         MyDesigner.suggest self (Some count) = Raise ValueError).
Proof.
  intros self count. unfold MyDesigner.suggest. split.
  - intros Hne Hcount. destruct (MyDesigner._completed_trials self); [done|].
    simpl. by rewrite range_nonpositive.
  - by intros ->.
Qed.

(** ** More on the Lehmer code *)

(** The digits of [index] in the factorial number system. *)
Definition index_digits (index : Z) (n : nat) : Z :=
  (index / factorial n) mod (Z.of_nat n + 1).

Lemma index_digits_lehmer (index : Z) (m : nat) : lehmer_digits (index_digits index) m.
Proof.
  intros n _. unfold index_digits.
  pose proof (Z.mod_pos_bound (index / factorial n) (Z.of_nat n + 1)). lia.
Qed.

Lemma lehmer_sum_index_digits (index : Z) (m : nat) :
  lehmer_sum (index_digits index) m = index mod factorial m.
Proof.
  induction m as [|m IH]; simpl.
  - unfold factorial. simpl. by rewrite Z.mod_1_r.
  - rewrite IH, factorial_S. unfold index_digits.
    pose proof (factorial_pos m).
    rewrite (Z.mul_comm (Z.of_nat m + 1)), Z.rem_mul_r by lia. lia.
Qed.

Lemma lehmer_sum_injective (d d' : nat → Z) (m : nat) :
  lehmer_digits d m → lehmer_digits d' m →
  lehmer_sum d m = lehmer_sum d' m → ∀ n, (n < m)%nat → d n = d' n.
Proof.
  induction m as [|m IH]; intros Hd Hd' Hsum n Hn; [lia|].
  simpl in Hsum.
  assert (lehmer_digits d m) as Hdm by (intros k Hk; apply Hd; lia).
  assert (lehmer_digits d' m) as Hdm' by (intros k Hk; apply Hd'; lia).
  pose proof (lehmer_sum_bounds d m Hdm). pose proof (lehmer_sum_bounds d' m Hdm').
  pose proof (factorial_pos m).
  assert (d m = d' m) as Hm.
  { apply (f_equal (λ z, z / factorial m)) in Hsum.
    by rewrite !Z.div_add, !Z.div_small, !Z.add_0_l in Hsum by lia. }
  destruct (decide (n = m)) as [->|Hne]; [done|].
  apply IH; [done|done| |lia]. rewrite Hm in Hsum. lia.
Qed.

Lemma range_length_nat (n : nat) : length (range (Z.of_nat n)) = n.
Proof. by rewrite range_length, Nat2Z.id. Qed.

Lemma compute_permutation_decode (N : nat) (d : nat → Z) :
  lehmer_digits d N →
  compute_permutation N (lehmer_sum d N) = Ok (decode d N (range (Z.of_nat N))).
Proof.
  intros Hd. unfold compute_permutation.
  pose proof (compute_permutation_loop_decode N N d (range (Z.of_nat N)) []) as Hloop.
  replace (N - N + 1)%nat with 1%nat in Hloop by lia.
  apply Hloop; [done| |apply range_NoDup|done].
  rewrite range_length. lia.
Qed.

Lemma compute_permutation_index_digits (N : nat) (index : Z) :
  0 ≤ index < factorial N →
  compute_permutation N index
  = Ok (decode (index_digits index) N (range (Z.of_nat N))).
Proof.
  intros Hi.
  rewrite <- (compute_permutation_decode N _ (index_digits_lehmer index N)).
  by rewrite lehmer_sum_index_digits, Z.mod_small.
Qed.

(** X14. For every [N], [compute_permutation] is a bijection from the
    indices [0, ..., N! - 1] to the permutations of [0, ..., N - 1]: on
    such an index it returns a permutation of [range(N)], two such indices
    with the same result are equal, and every permutation of [range(N)] is
    the result at one of them. *)
Theorem compute_permutation_bijection :
  ∀ (N : nat),
    (∀ index, 0 ≤ index < factorial N →
       ∃ permutation, compute_permutation N index = Ok permutation
                      ∧ permutation ≡ₚ range (Z.of_nat N))
    ∧ (∀ index index',
         0 ≤ index < factorial N → 0 ≤ index' < factorial N →
         compute_permutation N index = compute_permutation N index' →
         index = index')
    ∧ (∀ permutation, permutation ≡ₚ range (Z.of_nat N) →
         ∃ index, 0 ≤ index < factorial N
                  ∧ compute_permutation N index = Ok permutation).
Proof.
  intros N. split; [|split].
  - intros index Hi. eexists. split; [by apply compute_permutation_index_digits|].
    apply decode_permutation; [apply index_digits_lehmer|apply range_length_nat].
  - intros index index' Hi Hi' Heq.
    rewrite !compute_permutation_index_digits in Heq by done. injection Heq as Heq.
    pose proof (decode_injective _ _ N _ (index_digits_lehmer index N)
                  (index_digits_lehmer index' N) (range_length_nat N) (range_NoDup N) Heq)
      as Hdigits.
    apply (lehmer_sum_ext _ _ N) in Hdigits.
    rewrite !lehmer_sum_index_digits, !Z.mod_small in Hdigits by done. done.
  - intros permutation Hperm.
    destruct (decode_surjective N (range (Z.of_nat N)) permutation (range_length_nat N) Hperm)
      as (d & Hd & Hdec).
    exists (lehmer_sum d N). pose proof (lehmer_sum_bounds d N Hd).
    split; [lia|]. by rewrite compute_permutation_decode, Hdec.
Qed.

Lemma getitem_out_of_range {A} (l : list A) (i : Z) :
  Z.of_nat (length l) ≤ i ∨ i < - Z.of_nat (length l) →
  getitem l i = Raise IndexError.
Proof.
  intros Hi. unfold getitem.
  destruct (Z.ltb_spec i 0) as [Hneg|Hpos].
  - destruct (Z.ltb_spec (i + Z.of_nat (length l)) 0); [done|lia].
  - destruct (Z.ltb_spec i 0); [lia|].
    rewrite (lookup_ge_None_2 l (Z.to_nat i)); [done|lia].
Qed.

Lemma getitem_negative {A} (l : list A) (i : Z) :
  - Z.of_nat (length l) ≤ i < 0 → getitem l i = getitem l (i + Z.of_nat (length l)).
Proof.
  intros Hi. unfold getitem.
  assert ((i + Z.of_nat (length l) <? 0) = false) as Hwrap by (apply Z.ltb_ge; lia).
  destruct (Z.ltb_spec i 0); [|lia].
  rewrite !Hwrap. reflexivity.
Qed.

(** X15. An index that is not within [-N!, N! - 1] is rejected at the
    first subscript: for [N >= 1], [compute_permutation] raises
    [IndexError] when [index >= N!] and when [index < -N!]. *)
Theorem compute_permutation_out_of_range :
  ∀ (N : nat) (index : Z),
    (1 ≤ N)%nat →
    factorial N ≤ index ∨ index < - factorial N →
    compute_permutation N index = Raise IndexError.
Proof.
  intros [|n] index HN Hi; [lia|].
  unfold compute_permutation. cbn [seq compute_permutation_loop].
  replace (S n - 1)%nat with n by lia.
  pose proof (factorial_pos n) as Hf. rewrite factorial_S in Hi.
  rewrite getitem_out_of_range; [done|].
  rewrite range_length, Nat2Z.id.
  destruct Hi as [Hi|Hi].
  - left. apply Z.div_le_lower_bound; lia.
  - right. apply Z.div_lt_upper_bound; lia.
Qed.

Lemma compute_permutation_out_of_range_witness :
  compute_permutation N (-3628801) = Raise IndexError.
Proof.
  apply (compute_permutation_out_of_range N (-3628801)).
  - unfold N. lia.
  - right. change (factorial N) with (factorial 10). rewrite factorial_10. lia.
Defined.

(** X16. A negative index within [-N!, -1] is accepted, because a negative
    list subscript counts from the end: [compute_permutation] returns there
    what it returns at [index + N!]. *)
Theorem compute_permutation_negative_index :
  ∀ (N : nat) (index : Z),
    - factorial N ≤ index < 0 →
    compute_permutation N index = compute_permutation N (index + factorial N).
Proof.
  intros [|n] index Hi; [done|].
  unfold compute_permutation. cbn [seq compute_permutation_loop].
  replace (S n - 1)%nat with n by lia.
  pose proof (factorial_pos n) as Hf. rewrite factorial_S in *.
  rewrite Z.div_add, Z.mod_add by lia.
  rewrite (getitem_negative (range (Z.of_nat (S n))) (index / factorial n)).
  - by rewrite range_length, Nat2Z.id, Nat2Z.inj_succ, <- Z.add_1_r.
  - rewrite range_length, Nat2Z.id, Nat2Z.inj_succ. split.
    + apply Z.div_le_lower_bound; lia.
    + apply Z.div_lt_upper_bound; lia.
Qed.

Lemma compute_permutation_negative_index_witness :
  compute_permutation N (-1) = compute_permutation N (-1 + factorial N).
Proof.
  apply (compute_permutation_negative_index N (-1)).
  change (factorial N) with (factorial 10). rewrite factorial_10. lia.
Defined.




(** X18. For every [N], [compute_index] is a bijection from the digits of
    the trials that give each parameter "n" below [N] an integer of [0, n]
    to the indices [0, ..., N! - 1]: on such a trial it returns an index
    of that range, two such trials with the same index hold the same value
    for every parameter "n", and every index of the range is the index of
    such a trial. *)
Theorem compute_index_bijection :
  ∀ (N : nat),
    (∀ trial, lehmer_trial N trial →
       ∃ index, compute_index N trial = Ok index ∧ 0 ≤ index ≤ factorial N - 1)
    ∧ (∀ t1 t2, lehmer_trial N t1 → lehmer_trial N t2 →
         compute_index N t1 = compute_index N t2 →
         ∀ n, (n < N)%nat →
           trial_parameters t1 !! str n = trial_parameters t2 !! str n)
    ∧ (∀ index, 0 ≤ index ≤ factorial N - 1 →
         ∃ trial, lehmer_trial N trial ∧ compute_index N trial = Ok index).
Proof.
  intros N. split; [|split].
  - intros trial Ht. exists (lehmer_sum (digit trial) N).
    split; [by apply compute_index_lehmer|].
    by apply lehmer_sum_bounds, lehmer_trial_digits.
  - intros t1 t2 H1 H2 Heq n Hn.
    rewrite !compute_index_lehmer in Heq by done. injection Heq as Heq.
    pose proof (lehmer_sum_injective _ _ N (lehmer_trial_digits N t1 H1)
                  (lehmer_trial_digits N t2 H2) Heq n Hn) as Hd.
    unfold digit in Hd.
    destruct (H1 n Hn) as (v1 & E1 & _), (H2 n Hn) as (v2 & E2 & _).
    rewrite E1, E2 in *. by subst.
  - intros index Hi. exists (trial_of_digits N (index_digits index)).
    pose proof (trial_of_digits_lehmer N _ (index_digits_lehmer index N)) as Ht.
    split; [done|]. rewrite compute_index_lehmer by done. f_equal.
    rewrite (lehmer_sum_ext _ (index_digits index))
      by (intros n Hn; by apply trial_of_digits_digit).
    rewrite lehmer_sum_index_digits. apply Z.mod_small. lia.
Qed.

(** ** More on the permutation search space *)

(** The configuration that the loop declares for [n]. *)
Definition permutation_parameter (n : nat) : ParameterConfig :=
  mkParameterConfig (str n) (IntegerBounds 0 (Z.of_nat n)) None None [].

Lemma add_int_param_root_fresh (key : string) (min_value max_value : Z)
    (space : SearchSpace) :
  min_value ≤ max_value →
  (∀ pc, pc ∈ parameters space → name pc ≠ key) →
  add_int_param select_root key min_value max_value space
  = Ok (mkSearchSpace
          (parameters space
           ++ [mkParameterConfig key (IntegerBounds min_value max_value) None None []])).
Proof.
  intros Hle Hfresh. unfold add_int_param, add_param, select_root.
  destruct (Z.leb_spec min_value max_value) as [_|]; [|lia].
  destruct (existsb _ _) eqn:Hex; [|done].
  apply existsb_exists in Hex as (pc & Hin & Hname).
  apply list_elem_of_In in Hin. apply bool_decide_eq_true in Hname.
  by destruct (Hfresh pc Hin).
Qed.

Lemma permutation_problem_loop_builds (k s : nat) :
  permutation_problem_loop (seq s k) (mkSearchSpace (permutation_parameter <$> seq 0 s))
  = Ok (mkSearchSpace (permutation_parameter <$> seq 0 (s + k))).
Proof.
  revert s. induction k as [|k IH]; intros s.
  - simpl. by rewrite Nat.add_0_r.
  - cbn [seq permutation_problem_loop].
    rewrite add_int_param_root_fresh; [|lia|].
    + cbn [parameters mbind result_bind]. fold (permutation_parameter s).
      replace ((permutation_parameter <$> seq 0 s) ++ [permutation_parameter s])
        with (permutation_parameter <$> seq 0 (S s)) by (by rewrite seq_S, fmap_app).
      rewrite IH. by replace (S s + k)%nat with (s + S k)%nat by lia.
    + intros pc Hin. cbn [parameters] in Hin.
      apply list_elem_of_fmap in Hin as (j & -> & Hj). simpl. intros Hname.
      apply (inj pretty) in Hname. apply elem_of_seq in Hj. lia.
Qed.

(** X19. For every [N] the loop that declares the permutation search space
    runs through: the names [str(0)], ..., [str(N - 1)] are pairwise
    distinct and no bound is inverted, so no [add_int_param] is refused,
    and the space holds, in order, one INTEGER parameter [str(n)] with
    bounds [0, n] for each [n] below [N]. *)
Theorem permutation_problem_builds_for_all :
  ∀ (N : nat),
    permutation_problem N
    = Ok (mkSearchSpace
            ((λ n, mkParameterConfig (str n) (IntegerBounds 0 (Z.of_nat n)) None None [])
               <$> seq 0 N))
    ∧ NoDup (str <$> seq 0 N).
Proof.
  intros N. split.
  - apply (permutation_problem_loop_builds N 0).
  - apply NoDup_fmap_2, NoDup_seq. intros a b Hab. by apply (inj pretty) in Hab.
Qed.

(** ** More on [evaluate] *)



